(** * tt-bot: task orchestration and provider availability

    A shallow embedding of the service layer of the bot:
    - [BaseProvider] (availability check, statistics, circuit breaker,
      URL validation),
    - [ZefoyProvider.performAction] (only the parts that touch the
      provider state; the browser session is an external outcome),
    - [TikTokService] (task creation, provider selection, retry,
      completion, cancellation, bounded history),
    - the configuration object built from the environment.

    JavaScript numbers that count or stamp time are integers here ([Z]).
    Objects that the code shares by reference (task records) live in a
    heap and are addressed by their allocation index, so that a mutation
    through one alias is seen through every other one.  An [async]
    method is cut at its [await]s into the segments that run without
    interruption; whatever else the event loop runs between two segments
    is a call of another function of this file on the state in between. *)

From stdpp Require Import gmap strings list fin_maps.
From Stdlib Require Import ZArith Ascii.

Local Open Scope string_scope.
Local Open Scope list_scope.
Local Open Scope Z_scope.

(** ** JavaScript values that reach the service from its callers *)

Inductive JsValue :=
| JsUndefined
| JsNull
| JsBool (b : bool)
| JsNumber (n : Z)
| JsString (s : string)
| JsObject.

(** [!!v] *)
Definition truthy (v : JsValue) : bool :=
  match v with
  | JsUndefined | JsNull => false
  | JsBool b => b
  | JsNumber n => negb (n =? 0)
  | JsString s => negb (String.eqb s "")
  | JsObject => true
  end.

(** [typeof v === 'string'] *)
Definition is_string (v : JsValue) : bool :=
  match v with JsString _ => true | _ => false end.

(** ** Regular expressions

    The only pattern of the code is anchored at the start of the input
    and built from literals, [.], [?], [|] and [+].  [test] asks whether
    some prefix of the input is in the language of the pattern, which is
    decided with derivatives.  A string is the sequence of its code
    units, all below 256. *)

Module Regex.

Inductive regex :=
| Empty
| Eps
| Lit (c : ascii)
| Dot
| Cat (r1 r2 : regex)
| Alt (r1 r2 : regex)
| Star (r : regex).

Definition Opt (r : regex) : regex := Alt r Eps.
Definition Plus (r : regex) : regex := Cat r (Star r).

Fixpoint lits (s : string) : regex :=
  match s with
  | EmptyString => Eps
  | String c s' => Cat (Lit c) (lits s')
  end.

Fixpoint seq (rs : list regex) : regex :=
  match rs with
  | [] => Eps
  | r :: rs' => Cat r (seq rs')
  end.

(** Canonicalisation under the [i] flag: a lowercase ASCII letter
    becomes its uppercase; no other code unit below 256 is mapped onto
    an ASCII one. *)
Definition canonicalize (c : ascii) : ascii :=
  let n := nat_of_ascii c in
  if (Nat.leb 97 n && Nat.leb n 122)%bool then ascii_of_nat (n - 32) else c.

(** [.] excludes the line terminators (LF and CR below 256). *)
Definition is_line_terminator (c : ascii) : bool :=
  let n := nat_of_ascii c in
  (Nat.eqb n 10 || Nat.eqb n 13)%bool.

Fixpoint nullable (r : regex) : bool :=
  match r with
  | Empty => false
  | Eps => true
  | Lit _ => false
  | Dot => false
  | Cat r1 r2 => nullable r1 && nullable r2
  | Alt r1 r2 => nullable r1 || nullable r2
  | Star _ => true
  end.

Fixpoint deriv (ignoreCase : bool) (x : ascii) (r : regex) : regex :=
  match r with
  | Empty => Empty
  | Eps => Empty
  | Lit c =>
      let same :=
        if ignoreCase then Ascii.eqb (canonicalize x) (canonicalize c)
        else Ascii.eqb x c in
      if same then Eps else Empty
  | Dot => if is_line_terminator x then Empty else Eps
  | Cat r1 r2 =>
      if nullable r1
      then Alt (Cat (deriv ignoreCase x r1) r2) (deriv ignoreCase x r2)
      else Cat (deriv ignoreCase x r1) r2
  | Alt r1 r2 => Alt (deriv ignoreCase x r1) (deriv ignoreCase x r2)
  | Star r1 => Cat (deriv ignoreCase x r1) (Star r1)
  end.

(** [/^r/.test(s)] (with flag [i] when [ignoreCase]). *)
Fixpoint test_anchored (ignoreCase : bool) (r : regex) (s : string) : bool :=
  nullable r ||
  match s with
  | EmptyString => false
  | String x s' => test_anchored ignoreCase (deriv ignoreCase x r) s'
  end.

End Regex.

(** [/^https?:\/\/(www\.)?(tiktok\.com|vm\.tiktok\.com|vt\.tiktok\.com)\/.+/i] *)
Definition tiktokUrlPattern : Regex.regex :=
  Regex.seq
    [ Regex.lits "http"; Regex.Opt (Regex.Lit "s"); Regex.lits "://";
      Regex.Opt (Regex.lits "www.");
      Regex.Alt (Regex.lits "tiktok.com")
        (Regex.Alt (Regex.lits "vm.tiktok.com") (Regex.lits "vt.tiktok.com"));
      Regex.Lit "/";
      Regex.Plus Regex.Dot ].

(** [validateVideoUrl], the same body in [BaseProvider] and in
    [TikTokService]. *)
Definition validateVideoUrl (videoUrl : JsValue) : bool :=
  if negb (truthy videoUrl) || negb (is_string videoUrl) then false
  else
    match videoUrl with
    | JsString s => Regex.test_anchored true tiktokUrlPattern s
    | _ => false
    end.

(** ** Configuration (the [config] module)

    An environment variable after [parseInt(_, 10)]: [None] is [NaN]. *)

Record Env := {
  MAX_RETRIES : option Z;
  RETRY_DELAY : option Z;
  ZEFOY_DELAY : option Z;
}.

(** [parseInt(v, 10) || d] *)
Definition or_default (v : option Z) (d : Z) : Z :=
  match v with
  | Some n => if n =? 0 then d else n
  | None => d
  end.

Record Config := {
  zefoy_betweenActions : Z;
  tiktok_maxRetries : Z;
  tiktok_retryDelay : Z;
}.

Definition config (env : Env) : Config :=
  {| zefoy_betweenActions := or_default (ZEFOY_DELAY env) 30000;
     tiktok_maxRetries := or_default (MAX_RETRIES env) 3;
     tiktok_retryDelay := or_default (RETRY_DELAY env) 5000 |}.

(** The environment with none of the variables set. *)
Definition env_unset : Env :=
  {| MAX_RETRIES := None; RETRY_DELAY := None; ZEFOY_DELAY := None |}.

(** ** The logger: a sink of events, never read back *)

Inductive LogEvent :=
| LogProviderAction (provider action status : string)
| LogTikTokAction (actionType videoUrl provider status : string)
| LogWarn (message : string)
| LogInfo (message : string)
| LogError (message : string) (action : option string).

(** ** BaseProvider *)

Record Provider := {
  providerName : string;
  betweenActions : Z;          (* this.config.delays.betweenActions *)
  isAvailable : bool;
  lastActionTime : Z;
  actionCount : Z;
  errorCount : Z;
}.

Definition set_isAvailable (v : bool) (p : Provider) : Provider :=
  {| providerName := providerName p; betweenActions := betweenActions p;
     isAvailable := v; lastActionTime := lastActionTime p;
     actionCount := actionCount p; errorCount := errorCount p |}.

Definition set_lastActionTime (v : Z) (p : Provider) : Provider :=
  {| providerName := providerName p; betweenActions := betweenActions p;
     isAvailable := isAvailable p; lastActionTime := v;
     actionCount := actionCount p; errorCount := errorCount p |}.

Definition set_actionCount (v : Z) (p : Provider) : Provider :=
  {| providerName := providerName p; betweenActions := betweenActions p;
     isAvailable := isAvailable p; lastActionTime := lastActionTime p;
     actionCount := v; errorCount := errorCount p |}.

Definition set_errorCount (v : Z) (p : Provider) : Provider :=
  {| providerName := providerName p; betweenActions := betweenActions p;
     isAvailable := isAvailable p; lastActionTime := lastActionTime p;
     actionCount := actionCount p; errorCount := v |}.

(** [new BaseProvider(providerName, providerConfig)] *)
Definition newProvider (name : string) (delay : Z) : Provider :=
  {| providerName := name; betweenActions := delay; isAvailable := true;
     lastActionTime := 0; actionCount := 0; errorCount := 0 |}.

(** [getStats()] *)
Record ProviderStats := {
  stats_providerName : string;
  stats_isAvailable : bool;
  stats_actionCount : Z;
  stats_errorCount : Z;
  stats_lastActionTime : Z;
  stats_timeSinceLastAction : Z;
}.

Definition provider_getStats (now : Z) (this : Provider) : ProviderStats :=
  {| stats_providerName := providerName this;
     stats_isAvailable := isAvailable this;
     stats_actionCount := actionCount this;
     stats_errorCount := errorCount this;
     stats_lastActionTime := lastActionTime this;
     stats_timeSinceLastAction := now - lastActionTime this |}.

(** A method of a provider returns its value, the provider after the
    call and what it sent to the logger. *)
Definition checkAvailability (now : Z) (this : Provider)
  : bool * Provider * list LogEvent :=
  if negb (isAvailable this) then
    (false, this,
     [LogProviderAction (providerName this) "availability_check" "unavailable"])
  else
    let timeSinceLastAction := now - lastActionTime this in
    let minDelay := betweenActions this in
    if timeSinceLastAction <? minDelay then
      (false, this,
       [LogProviderAction (providerName this) "availability_check" "rate_limited"])
    else (true, this, []).

(** ** Task records and results *)

Inductive TaskStatus :=
| Pending | Running | Retrying | Completed | Failed | Cancelled.

Definition TaskStatus_eqb (a b : TaskStatus) : bool :=
  match a, b with
  | Pending, Pending | Running, Running | Retrying, Retrying
  | Completed, Completed | Failed, Failed | Cancelled, Cancelled => true
  | _, _ => false
  end.

(** The string the logger and the reports show for a status. *)
Definition status_string (s : TaskStatus) : string :=
  match s with
  | Pending => "pending" | Running => "running" | Retrying => "retrying"
  | Completed => "completed" | Failed => "failed" | Cancelled => "cancelled"
  end.

(** [options.maxAttempts] as the callers supply it: absent, [null] or a
    number. *)
Inductive MaxAttemptsOption :=
| MaxAttemptsUndefined
| MaxAttemptsNull
| MaxAttemptsNumber (n : Z).

Record Options := {
  opt_maxAttempts : MaxAttemptsOption;
  opt_headless : bool;
}.

(** [options.maxAttempts || dflt] *)
Definition maxAttempts_or (o : MaxAttemptsOption) (dflt : Z) : Z :=
  match o with
  | MaxAttemptsUndefined | MaxAttemptsNull => dflt
  | MaxAttemptsNumber n => if n =? 0 then dflt else n
  end.

(** [s || dflt] for a string that may be absent. *)
Definition string_or (s : option string) (dflt : string) : string :=
  match s with
  | Some s => if String.eqb s "" then dflt else s
  | None => dflt
  end.

(** The objects that the provider and the service return.  A field
    that an object literal leaves out is [None]. *)
Record Result := {
  res_success : bool;
  res_error : option string;
  res_taskId : option string;
  res_status : option TaskStatus;
  res_attempts : option Z;
  res_maxAttempts : option Z;
  res_provider : option string;
  res_actionType : option string;
  res_videoUrl : option string;
  res_sessionId : option string;
  res_timestamp : option Z;
}.

Record Task := {
  task_id : string;
  task_videoUrl : string;
  task_actionType : string;
  task_options : Options;
  task_status : TaskStatus;
  task_createdAt : Z;
  task_attempts : Z;
  task_maxAttempts : Z;
  task_provider : option string;
  task_error : option string;
  task_completedAt : option Z;
  task_cancelledAt : option Z;
  task_result : option Result;
}.

Definition set_status (v : TaskStatus) (t : Task) : Task :=
  {| task_id := task_id t; task_videoUrl := task_videoUrl t;
     task_actionType := task_actionType t; task_options := task_options t;
     task_status := v; task_createdAt := task_createdAt t;
     task_attempts := task_attempts t; task_maxAttempts := task_maxAttempts t;
     task_provider := task_provider t; task_error := task_error t;
     task_completedAt := task_completedAt t;
     task_cancelledAt := task_cancelledAt t; task_result := task_result t |}.

Definition set_attempts (v : Z) (t : Task) : Task :=
  {| task_id := task_id t; task_videoUrl := task_videoUrl t;
     task_actionType := task_actionType t; task_options := task_options t;
     task_status := task_status t; task_createdAt := task_createdAt t;
     task_attempts := v; task_maxAttempts := task_maxAttempts t;
     task_provider := task_provider t; task_error := task_error t;
     task_completedAt := task_completedAt t;
     task_cancelledAt := task_cancelledAt t; task_result := task_result t |}.

Definition set_provider (v : option string) (t : Task) : Task :=
  {| task_id := task_id t; task_videoUrl := task_videoUrl t;
     task_actionType := task_actionType t; task_options := task_options t;
     task_status := task_status t; task_createdAt := task_createdAt t;
     task_attempts := task_attempts t; task_maxAttempts := task_maxAttempts t;
     task_provider := v; task_error := task_error t;
     task_completedAt := task_completedAt t;
     task_cancelledAt := task_cancelledAt t; task_result := task_result t |}.

Definition set_error (v : option string) (t : Task) : Task :=
  {| task_id := task_id t; task_videoUrl := task_videoUrl t;
     task_actionType := task_actionType t; task_options := task_options t;
     task_status := task_status t; task_createdAt := task_createdAt t;
     task_attempts := task_attempts t; task_maxAttempts := task_maxAttempts t;
     task_provider := task_provider t; task_error := v;
     task_completedAt := task_completedAt t;
     task_cancelledAt := task_cancelledAt t; task_result := task_result t |}.

Definition set_completedAt (v : option Z) (t : Task) : Task :=
  {| task_id := task_id t; task_videoUrl := task_videoUrl t;
     task_actionType := task_actionType t; task_options := task_options t;
     task_status := task_status t; task_createdAt := task_createdAt t;
     task_attempts := task_attempts t; task_maxAttempts := task_maxAttempts t;
     task_provider := task_provider t; task_error := task_error t;
     task_completedAt := v;
     task_cancelledAt := task_cancelledAt t; task_result := task_result t |}.

Definition set_cancelledAt (v : option Z) (t : Task) : Task :=
  {| task_id := task_id t; task_videoUrl := task_videoUrl t;
     task_actionType := task_actionType t; task_options := task_options t;
     task_status := task_status t; task_createdAt := task_createdAt t;
     task_attempts := task_attempts t; task_maxAttempts := task_maxAttempts t;
     task_provider := task_provider t; task_error := task_error t;
     task_completedAt := task_completedAt t;
     task_cancelledAt := v; task_result := task_result t |}.

Definition set_result (v : option Result) (t : Task) : Task :=
  {| task_id := task_id t; task_videoUrl := task_videoUrl t;
     task_actionType := task_actionType t; task_options := task_options t;
     task_status := task_status t; task_createdAt := task_createdAt t;
     task_attempts := task_attempts t; task_maxAttempts := task_maxAttempts t;
     task_provider := task_provider t; task_error := task_error t;
     task_completedAt := task_completedAt t;
     task_cancelledAt := task_cancelledAt t; task_result := v |}.

(** ** The service object

    [heap] holds the task objects; [activeTasks] (a [Map] from task id
    to task object) and [taskHistory] (an array of task objects) hold
    references into it.  [providers] is the [Map] from name to provider
    in insertion order; a provider object is referred to by its
    position.  [timers] are the pending [setTimeout] callbacks, each due
    at a time and calling [retryTask] on a task id. *)

Record Service := {
  heap : list Task;
  activeTasks : gmap string nat;
  taskHistory : list nat;
  providers : list (string * Provider);
  timers : list (Z * string);
  logged : list LogEvent;
}.

Definition set_heap (v : list Task) (st : Service) : Service :=
  {| heap := v; activeTasks := activeTasks st; taskHistory := taskHistory st;
     providers := providers st; timers := timers st; logged := logged st |}.

Definition set_activeTasks (v : gmap string nat) (st : Service) : Service :=
  {| heap := heap st; activeTasks := v; taskHistory := taskHistory st;
     providers := providers st; timers := timers st; logged := logged st |}.

Definition set_taskHistory (v : list nat) (st : Service) : Service :=
  {| heap := heap st; activeTasks := activeTasks st; taskHistory := v;
     providers := providers st; timers := timers st; logged := logged st |}.

Definition set_providers (v : list (string * Provider)) (st : Service) : Service :=
  {| heap := heap st; activeTasks := activeTasks st;
     taskHistory := taskHistory st;
     providers := v; timers := timers st; logged := logged st |}.

Definition set_timers (v : list (Z * string)) (st : Service) : Service :=
  {| heap := heap st; activeTasks := activeTasks st;
     taskHistory := taskHistory st;
     providers := providers st; timers := v; logged := logged st |}.

Definition set_logged (v : list LogEvent) (st : Service) : Service :=
  {| heap := heap st; activeTasks := activeTasks st;
     taskHistory := taskHistory st;
     providers := providers st; timers := timers st; logged := v |}.

(** [logger.*(...)] *)
Definition emit (evs : list LogEvent) (st : Service) : Service :=
  set_logged (logged st ++ evs) st.

(** An assignment to fields of the task object at [ref]. *)
Definition modify_task (ref : nat) (f : Task -> Task) (st : Service) : Service :=
  set_heap (alter f ref (heap st)) st.

(** An assignment to fields of the provider object at [ref]. *)
Definition put_provider (ref : nat) (p : Provider) (st : Service) : Service :=
  set_providers (alter (fun kp => (kp.1, p)) ref (providers st)) st.

(** [provider.providerName] of the provider object at [ref]. *)
Definition provider_name (ref : nat) (st : Service) : string :=
  default "" ((fun kp : string * Provider => providerName kp.2)
                <$> providers st !! ref).

(** [this.providers.get(name)]: the position of the entry under [name]. *)
Definition providers_get (name : string) (st : Service) : option nat :=
  fst <$> list_find (fun kp : string * Provider => kp.1 = name) (providers st).

(** [array.slice(-n)] *)
Definition slice_last {A} (n : nat) (l : list A) : list A :=
  drop (length l - n) l.

(** [array.sort(cmp)]: the sort is stable; an element stays in front of
    a later one unless the comparison puts it strictly behind. *)
Fixpoint sort_insert {A} (cmp : A -> A -> Z) (x : A) (l : list A) : list A :=
  match l with
  | [] => [x]
  | y :: l' => if cmp x y <=? 0 then x :: y :: l' else y :: sort_insert cmp x l'
  end.

Definition array_sort {A} (cmp : A -> A -> Z) (l : list A) : list A :=
  foldr (sort_insert cmp) [] l.

(** What an [async] method does up to an [await]: it has returned
    [r], or it waits with its locals [k]. *)
Inductive Step (K : Type) :=
| Return (r : Result)
| Await (k : K).
Arguments Return {K} r.
Arguments Await {K} k.

(** A call of [provider.performAction] that is under way: it has
    already returned its object, or it is driving the browser session
    [sessionId]. *)
Inductive ProviderCall :=
| CallResolved (r : Result)
| CallInBrowser (sessionId : string).

(** How the browser part of a provider call ends: every step went
    through, or one of them threw. *)
Inductive BrowserOutcome :=
| BrowserDone
| BrowserThrew (message : string).

(** The locals of [performAction] that outlive an [await]. *)
Record Frame := {
  fr_taskId : string;
  fr_task : nat;
  fr_videoUrl : string;
  fr_actionType : string;
  fr_options : Options;
}.

Section WithEnv.

Variable env : Env.

(** ** BaseProvider, continued *)

Definition updateStats (success : bool) (now : Z) (this : Provider)
  : Provider * list LogEvent :=
  let this := set_lastActionTime now this in
  let this := set_actionCount (actionCount this + 1) this in
  if success then (set_errorCount 0 this, [])
  else
    let this := set_errorCount (errorCount this + 1) this in
    if errorCount this >=? tiktok_maxRetries (config env) then
      (set_isAvailable false this,
       [LogProviderAction (providerName this) "disabled" "too_many_errors"])
    else (this, []).

Definition resetAvailability (this : Provider) : Provider * list LogEvent :=
  let this := set_isAvailable true this in
  let this := set_errorCount 0 this in
  (this, [LogProviderAction (providerName this) "reset" "availability_restored"]).

(** ** ZefoyProvider.performAction

    Up to the launch of the browser: the two guards.  [sessionId] is
    the [uuidv4()] drawn for the session. *)
Definition zefoy_performAction_begin
    (videoUrl actionType sessionId : string) (now : Z) (this : Provider)
  : ProviderCall * Provider * list LogEvent :=
  let '(available, this, evs) := checkAvailability now this in
  if negb available then
    (CallResolved
       {| res_success := false; res_error := Some "Provider not available";
          res_taskId := None; res_status := None; res_attempts := None;
          res_maxAttempts := None; res_provider := Some (providerName this);
          res_actionType := Some actionType; res_videoUrl := None;
          res_sessionId := None; res_timestamp := None |},
     this, evs)
  else if negb (validateVideoUrl (JsString videoUrl)) then
    (CallResolved
       {| res_success := false; res_error := Some "Invalid TikTok video URL";
          res_taskId := None; res_status := None; res_attempts := None;
          res_maxAttempts := None; res_provider := Some (providerName this);
          res_actionType := Some actionType; res_videoUrl := None;
          res_sessionId := None; res_timestamp := None |},
     this, evs)
  else (CallInBrowser sessionId, this, evs).

(** From the end of the browser steps on: the [try] block ran through
    ([BrowserDone]) or the [catch] block runs ([BrowserThrew]).  The
    [finally] block closes the session and touches nothing here. *)
Definition zefoy_performAction_end
    (videoUrl actionType sessionId : string) (outcome : BrowserOutcome)
    (now : Z) (this : Provider)
  : Result * Provider * list LogEvent :=
  match outcome with
  | BrowserDone =>
      let '(this, evs) := updateStats true now this in
      ({| res_success := true; res_error := None;
          res_taskId := None; res_status := None; res_attempts := None;
          res_maxAttempts := None; res_provider := Some (providerName this);
          res_actionType := Some actionType; res_videoUrl := Some videoUrl;
          res_sessionId := Some sessionId; res_timestamp := Some now |},
       this,
       evs ++ [LogTikTokAction actionType videoUrl (providerName this) "success"])
  | BrowserThrew message =>
      let '(this, evs) := updateStats false now this in
      ({| res_success := false; res_error := Some message;
          res_taskId := None; res_status := None; res_attempts := None;
          res_maxAttempts := None; res_provider := Some (providerName this);
          res_actionType := Some actionType; res_videoUrl := Some videoUrl;
          res_sessionId := Some sessionId; res_timestamp := Some now |},
       this,
       LogError message None :: evs)
  end.

(** ** TikTokService *)

Definition getAvailableActions : list string :=
  ["views"; "likes"; "shares"; "favorites"; "followers"; "comments"].

(** [array.includes(x)] on an array of strings. *)
Definition includes (x : string) (l : list string) : bool :=
  existsb (String.eqb x) l.

Definition historyLimit : nat := 1000.

(** [completeTask(taskId, task)] *)
Definition completeTask (taskId : string) (task : nat) (st : Service) : Service :=
  let st := set_activeTasks (delete taskId (activeTasks st)) st in
  let st := set_taskHistory (taskHistory st ++ [task]) st in
  let st :=
    if (historyLimit <? length (taskHistory st))%nat
    then set_taskHistory (slice_last historyLimit (taskHistory st)) st
    else st in
  match heap st !! task with
  | Some t =>
      emit [LogTikTokAction (task_actionType t) (task_videoUrl t)
              (string_or (task_provider t) "system")
              (status_string (task_status t))] st
  | None => st
  end.

(** The loop of [findAvailableProvider] over [this.providers], from
    position [i] on: the providers that answer [checkAvailability()]
    with true, in the order of the map. *)
Fixpoint availableFrom (now : Z) (i : nat) (ps : list (string * Provider))
  : list (nat * Provider) * list (string * Provider) * list LogEvent :=
  match ps with
  | [] => ([], [], [])
  | (name, provider) :: ps' =>
      let '(available, provider, evs) := checkAvailability now provider in
      let '(rest, ps'', evs') := availableFrom now (S i) ps' in
      (if available then (i, provider) :: rest else rest,
       (name, provider) :: ps'', evs ++ evs')
  end.

(** The comparison function handed to [sort]. *)
Definition compareProviders (now : Z) (a b : nat * Provider) : Z :=
  let aStats := provider_getStats now a.2 in
  let bStats := provider_getStats now b.2 in
  if negb (stats_errorCount aStats =? stats_errorCount bStats) then
    stats_errorCount aStats - stats_errorCount bStats
  else stats_timeSinceLastAction aStats - stats_timeSinceLastAction bStats.

Definition findAvailableProvider (actionType : string) (now : Z) (st : Service)
  : option nat * Service :=
  let '(availableProviders, ps, evs) := availableFrom now 0 (providers st) in
  let st := emit evs (set_providers ps st) in
  if (length availableProviders =? 0)%nat then
    (None, emit [LogWarn "No available providers found"] st)
  else
    (fst <$> head (array_sort (compareProviders now) availableProviders), st).

(** [executeAction], up to the [await] of the provider's promise.  The
    provider never rejects that promise, so the [catch] block of
    [executeAction] has no run. *)
Definition executeAction_begin
    (provider : nat) (videoUrl actionType sessionId : string) (now : Z)
    (st : Service) : option ProviderCall * Service :=
  match providers st !! provider with
  | Some (_, p) =>
      let st :=
        emit [LogTikTokAction actionType videoUrl (providerName p) "executing"] st in
      let '(call, p, evs) :=
        zefoy_performAction_begin videoUrl actionType sessionId now p in
      (Some call, emit evs (put_provider provider p st))
  | None => (None, st)
  end.

(** [executeAction], from the settlement of the provider's promise on. *)
Definition executeAction_end
    (provider : nat) (videoUrl actionType : string) (call : ProviderCall)
    (outcome : BrowserOutcome) (now : Z) (st : Service)
  : option Result * Service :=
  match providers st !! provider with
  | Some (_, p) =>
      let '(result, p, evs) :=
        match call with
        | CallResolved r => (r, p, [])
        | CallInBrowser sessionId =>
            zefoy_performAction_end videoUrl actionType sessionId outcome now p
        end in
      let st := emit evs (put_provider provider p st) in
      (Some result,
       emit [LogTikTokAction actionType videoUrl (providerName p)
               (if res_success result then "completed" else "failed")] st)
  | None => (None, st)
  end.

(** The object every failed validation and every failed selection
    returns: [{ success: false, error, taskId?, timestamp }]. *)
Definition failure (error : string) (taskId : option string) (now : Z) : Result :=
  {| res_success := false; res_error := Some error;
     res_taskId := taskId; res_status := None; res_attempts := None;
     res_maxAttempts := None; res_provider := None;
     res_actionType := None; res_videoUrl := None;
     res_sessionId := None; res_timestamp := Some now |}.

(** [performAction(videoUrl, actionType = 'views', options = {})], from
    the call to the first [await]: validation, creation of the task
    under the fresh id [taskId] (the [uuidv4()] drawn for it), and the
    body of [findAvailableProvider], which runs at once. *)
Definition performAction_begin
    (videoUrl : JsValue) (actionType : option string) (options : Options)
    (taskId : string) (now : Z) (st : Service)
  : Step (Frame * option nat) * Service :=
  let actionType := default "views" actionType in
  if negb (validateVideoUrl videoUrl) then
    (Return (failure "Invalid TikTok video URL" None now), st)
  else if negb (includes actionType getAvailableActions) then
    (Return (failure ("Invalid action type: " +:+ actionType) None now), st)
  else
    let url := match videoUrl with JsString s => s | _ => "" end in
    let task :=
      {| task_id := taskId; task_videoUrl := url;
         task_actionType := actionType; task_options := options;
         task_status := Pending; task_createdAt := now; task_attempts := 0;
         task_maxAttempts :=
           maxAttempts_or (opt_maxAttempts options) (tiktok_maxRetries (config env));
         task_provider := None; task_error := None; task_completedAt := None;
         task_cancelledAt := None; task_result := None |} in
    let ref := length (heap st) in
    let st := set_heap (heap st ++ [task]) st in
    let st := set_activeTasks (<[taskId := ref]> (activeTasks st)) st in
    let st := emit [LogTikTokAction actionType url "system" "task_created"] st in
    let '(provider, st) := findAvailableProvider actionType now st in
    (Await ({| fr_taskId := taskId; fr_task := ref; fr_videoUrl := url;
               fr_actionType := actionType; fr_options := options |},
            provider), st).

(** [performAction], from the first [await] to the second: the task
    without a provider fails; otherwise the provider is bound, the task
    runs and [executeAction] starts. *)
Definition performAction_selected
    (fr : Frame) (provider : option nat) (sessionId : string) (now : Z)
    (st : Service)
  : Step (Frame * nat * ProviderCall) * Service :=
  match provider with
  | None =>
      let st :=
        modify_task (fr_task fr)
          (fun t => set_error (Some "No available providers") (set_status Failed t))
          st in
      let st := completeTask (fr_taskId fr) (fr_task fr) st in
      (Return (failure "No available providers for this action"
                 (Some (fr_taskId fr)) now), st)
  | Some pref =>
      let name := (fun kp : string * Provider => providerName kp.2)
                    <$> providers st !! pref in
      let st :=
        modify_task (fr_task fr)
          (fun t => set_status Running (set_provider name t)) st in
      let st := set_activeTasks (<[fr_taskId fr := fr_task fr]> (activeTasks st)) st in
      match executeAction_begin pref (fr_videoUrl fr) (fr_actionType fr)
              sessionId now st with
      | (Some call, st) => (Await (fr, pref, call), st)
      | (None, st) =>
          (* not reached: [pref] came out of [this.providers] *)
          (Return (failure "" (Some (fr_taskId fr)) now), st)
      end
  end.

(** [performAction], from the second [await] to its end. *)
Definition performAction_resume
    (fr : Frame) (provider : nat) (call : ProviderCall)
    (outcome : BrowserOutcome) (now : Z) (st : Service)
  : Result * Service :=
  match executeAction_end provider (fr_videoUrl fr) (fr_actionType fr)
          call outcome now st with
  | (None, st) =>
      (* not reached: [provider] came out of [this.providers] *)
      (failure "" (Some (fr_taskId fr)) now, st)
  | (Some result, st) =>
      if res_success result then
        let st :=
          modify_task (fr_task fr)
            (fun t => set_result (Some result)
                        (set_completedAt (Some now) (set_status Completed t)))
            st in
        (result, completeTask (fr_taskId fr) (fr_task fr) st)
      else
        let st :=
          modify_task (fr_task fr)
            (fun t => set_attempts (task_attempts t + 1)
                        (set_error (res_error result) (set_status Failed t)))
            st in
        match heap st !! fr_task fr with
        | Some task =>
            if task_attempts task <? task_maxAttempts task then
              let st := modify_task (fr_task fr) (set_status Retrying) st in
              let st :=
                emit [LogTikTokAction (fr_actionType fr) (fr_videoUrl fr)
                        (provider_name provider st) "retrying"] st in
              let st :=
                set_timers
                  (timers st ++ [(now + tiktok_retryDelay (config env), fr_taskId fr)])
                  st in
              ({| res_success := false; res_error := res_error result;
                  res_taskId := Some (fr_taskId fr);
                  res_status := Some Retrying;
                  res_attempts := Some (task_attempts task);
                  res_maxAttempts := Some (task_maxAttempts task);
                  res_provider := None; res_actionType := None;
                  res_videoUrl := None; res_sessionId := None;
                  res_timestamp := Some now |}, st)
            else (result, completeTask (fr_taskId fr) (fr_task fr) st)
        | None =>
            (* not reached: the task object was allocated at creation *)
            (result, st)
        end
  end.

(** [retryTask(taskId)], the callback of the timer, from the call to
    its [await]: [None] when it has returned, otherwise the task, the
    provider and the call it waits for. *)
Definition retryTask_begin
    (taskId sessionId : string) (now : Z) (st : Service)
  : option (nat * nat * ProviderCall) * Service :=
  match activeTasks st !! taskId with
  | None => (None, st)
  | Some ref =>
      match heap st !! ref with
      | None => (None, st)
      | Some task =>
          if negb (TaskStatus_eqb (task_status task) Retrying) then (None, st)
          else
            let st :=
              emit [LogTikTokAction (task_actionType task) (task_videoUrl task)
                      (default "undefined" (task_provider task)) "retry_started"]
                st in
            let found :=
              match task_provider task with
              | Some name => providers_get name st
              | None => None
              end in
            match found with
            | None =>
                let message :=
                  "Provider not found: "
                  +:+ default "undefined" (task_provider task) in
                let st := emit [LogError message (Some "retryTask")] st in
                let st :=
                  modify_task ref
                    (fun t => set_attempts (task_attempts t + 1)
                                (set_error (Some message) (set_status Failed t)))
                    st in
                (None, completeTask taskId ref st)
            | Some pref =>
                match executeAction_begin pref (task_videoUrl task)
                        (task_actionType task) sessionId now st with
                | (Some call, st) => (Some (ref, pref, call), st)
                | (None, st) => (None, st)
                end
            end
      end
  end.

(** [retryTask], from its [await] to its end. *)
Definition retryTask_resume
    (taskId : string) (task provider : nat) (call : ProviderCall)
    (outcome : BrowserOutcome) (now : Z) (st : Service) : Service :=
  match heap st !! task with
  | None => st
  | Some t =>
      match executeAction_end provider (task_videoUrl t) (task_actionType t)
              call outcome now st with
      | (None, st) => st
      | (Some result, st) =>
          let st :=
            if res_success result then
              modify_task task
                (fun t => set_result (Some result)
                            (set_completedAt (Some now) (set_status Completed t)))
                st
            else
              modify_task task
                (fun t => set_attempts (task_attempts t + 1)
                            (set_error (res_error result) (set_status Failed t)))
                st in
          completeTask taskId task st
      end
  end.

(** [cancelTask(taskId)] *)
Definition cancelTask (taskId : string) (now : Z) (st : Service)
  : bool * Service :=
  match activeTasks st !! taskId with
  | None => (false, st)
  | Some task =>
      let st :=
        modify_task task
          (fun t => set_cancelledAt (Some now) (set_status Cancelled t)) st in
      let st := completeTask taskId task st in
      match heap st !! task with
      | Some t =>
          (true,
           emit [LogTikTokAction (task_actionType t) (task_videoUrl t)
                   (string_or (task_provider t) "system") "cancelled"] st)
      | None => (true, st)
      end
  end.

(** [getTaskStatus(taskId)]: the active task under the id, else the
    first task of the history with it. *)
Definition getTaskStatus (taskId : string) (st : Service) : option Task :=
  match activeTasks st !! taskId with
  | Some ref => heap st !! ref
  | None =>
      head (omap (fun ref =>
                    match heap st !! ref with
                    | Some t => if String.eqb (task_id t) taskId then Some t else None
                    | None => None
                    end) (taskHistory st))
  end.

(** [resetProviders()] *)
Definition resetProviders (st : Service) : Service :=
  let st :=
    foldl (fun st ref =>
             match providers st !! ref with
             | Some (_, p) =>
                 let '(p, evs) := resetAvailability p in
                 emit evs (put_provider ref p st)
             | None => st
             end) st (seq 0 (length (providers st))) in
  emit [LogInfo "All providers reset"] st.

(** [new TikTokService()]: no task, and the one provider that
    [initializeProviders] registers. *)
Definition newService : Service :=
  {| heap := []; activeTasks := ∅; taskHistory := [];
     providers :=
       [("zefoy", newProvider "zefoy" (zefoy_betweenActions (config env)))];
     timers := [];
     logged := [LogInfo "TikTok service initialized"] |}.

(** The timer at position [i] fires at [now]: it leaves the pending
    timers and its callback [() => this.retryTask(taskId)] runs.  A
    timer does not fire before it is due. *)
Definition fireTimer (i : nat) (sessionId : string) (now : Z) (st : Service)
  : option (nat * nat * ProviderCall) * Service :=
  match timers st !! i with
  | Some (due, taskId) =>
      if now <? due then (None, st)
      else retryTask_begin taskId sessionId now (set_timers (delete i (timers st)) st)
  | None => (None, st)
  end.

(** ** Runs

    What a caller can do to one provider object short of
    [resetAvailability()]: every other method of [BaseProvider] that
    reads or writes its fields, and the two halves of
    [ZefoyProvider.performAction].  Each call happens at a time of its
    own. *)
Inductive ProviderOp :=
| OpCheckAvailability (now : Z)
| OpUpdateStats (success : bool) (now : Z)
| OpGetStats (now : Z)
| OpPerformBegin (videoUrl actionType sessionId : string) (now : Z)
| OpPerformEnd (videoUrl actionType sessionId : string)
    (outcome : BrowserOutcome) (now : Z).

Definition run_op (p : Provider) (op : ProviderOp) : Provider :=
  match op with
  | OpCheckAvailability now => (checkAvailability now p).1.2
  | OpUpdateStats success now => (updateStats success now p).1
  | OpGetStats now => p
  | OpPerformBegin videoUrl actionType sessionId now =>
      (zefoy_performAction_begin videoUrl actionType sessionId now p).1.2
  | OpPerformEnd videoUrl actionType sessionId outcome now =>
      (zefoy_performAction_end videoUrl actionType sessionId outcome now p).1.2
  end.

Definition run_ops (ops : list ProviderOp) (p : Provider) : Provider :=
  foldl run_op p ops.

(** [updateStats(false)] once at each of the [times], in a row. *)
Definition failures (times : list Z) (p : Provider) : Provider :=
  foldl (fun p now => (updateStats false now p).1) p times.


(** What the event loop can run on the service short of
    [resetProviders()]: any segment of [performAction] and of
    [retryTask], a timer, a cancellation, each with whatever arguments
    and at whatever time. *)
Inductive ServiceCall :=
| DoPerformBegin (videoUrl : JsValue) (actionType : option string)
    (options : Options) (taskId : string) (now : Z)
| DoPerformSelected (fr : Frame) (provider : option nat)
    (sessionId : string) (now : Z)
| DoPerformResume (fr : Frame) (provider : nat) (call : ProviderCall)
    (outcome : BrowserOutcome) (now : Z)
| DoFireTimer (i : nat) (sessionId : string) (now : Z)
| DoRetryResume (taskId : string) (task provider : nat) (call : ProviderCall)
    (outcome : BrowserOutcome) (now : Z)
| DoCancel (taskId : string) (now : Z).

Definition run_call (st : Service) (c : ServiceCall) : Service :=
  match c with
  | DoPerformBegin videoUrl actionType options taskId now =>
      (performAction_begin videoUrl actionType options taskId now st).2
  | DoPerformSelected fr provider sessionId now =>
      (performAction_selected fr provider sessionId now st).2
  | DoPerformResume fr provider call outcome now =>
      (performAction_resume fr provider call outcome now st).2
  | DoFireTimer i sessionId now => (fireTimer i sessionId now st).2
  | DoRetryResume taskId task provider call outcome now =>
      retryTask_resume taskId task provider call outcome now st
  | DoCancel taskId now => (cancelTask taskId now st).2
  end.

Definition run_calls (cs : list ServiceCall) (st : Service) : Service :=
  foldl run_call st cs.

(** The provider at position [i] of the service has its circuit open. *)
Definition circuit_open (i : nat) (st : Service) : Prop :=
  exists kp, providers st !! i = Some kp /\ isAvailable kp.2 = false.

End WithEnv.


(** ** A small scenario, for evaluation

    The service as it starts with no environment variable set, and one
    request for views on a valid URL, submitted at time 100000. *)

Definition demo_url : JsValue := JsString "https://www.tiktok.com/@u/video/123".

Definition demo_options (m : MaxAttemptsOption) : Options :=
  {| opt_maxAttempts := m; opt_headless := true |}.

Definition demo_submitted (m : MaxAttemptsOption)
  : Step (Frame * option nat) * Service :=
  performAction_begin env_unset demo_url (Some "views") (demo_options m)
    "task-1" 100000 (newService env_unset).

(** The provider is chosen and the browser session "session-1" starts. *)
Definition demo_running (m : MaxAttemptsOption)
  : option (Frame * nat * ProviderCall * Service) :=
  match demo_submitted m with
  | (Await (fr, provider), st) =>
      match performAction_selected fr provider "session-1" 100000 st with
      | (Await (fr, pref, call), st) => Some (fr, pref, call, st)
      | _ => None
      end
  | _ => None
  end.

(** The session throws at time 130000: the first attempt has failed. *)
Definition demo_first_failure (m : MaxAttemptsOption)
  : option (Result * Service) :=
  match demo_running m with
  | Some (fr, pref, call, st) =>
      Some (performAction_resume env_unset fr pref call
              (BrowserThrew "Failed to solve CAPTCHA") 130000 st)
  | None => None
  end.

(** The state in which the first attempt has left the service. *)
Definition demo_retrying (m : MaxAttemptsOption) : Service :=
  match demo_first_failure m with
  | Some (_, st) => st
  | None => newService env_unset
  end.

(** The timer of the retry fires at time 200000, in session "session-2". *)
Definition demo_retry_started (m : MaxAttemptsOption)
  : option (nat * nat * ProviderCall) * Service :=
  fireTimer 0 "session-2" 200000 (demo_retrying m).

(** That session throws too, at time 230000. *)
Definition demo_second_failure (m : MaxAttemptsOption) : option Service :=
  match demo_retry_started m with
  | (Some (task, pref, call), st) =>
      Some (retryTask_resume env_unset "task-1" task pref call
              (BrowserThrew "Failed to solve CAPTCHA") 230000 st)
  | (None, _) => None
  end.

(** The [retrying] reports that the service has sent to the logger. *)
Definition is_retrying_report (ev : LogEvent) : bool :=
  match ev with
  | LogTikTokAction _ _ _ status => String.eqb status "retrying"
  | _ => false
  end.

Definition retrying_reports (st : Service) : nat :=
  length (List.filter is_retrying_report (logged st)).

(** The request is cancelled at time 110000, while "session-1" is
    running; the session then goes through at time 130000. *)
Definition demo_cancel_in_flight : option (bool * Result * Service) :=
  match demo_running MaxAttemptsUndefined with
  | Some (fr, pref, call, st) =>
      let '(cancelled, st) := cancelTask "task-1" 110000 st in
      let '(result, st) :=
        performAction_resume env_unset fr pref call BrowserDone 130000 st in
      Some (cancelled, result, st)
  | None => None
  end.

(** A service with two providers, neither with an error: "zefoy" acted
    last at time 10000, "freer" at time 50000. *)
Definition demo_two_providers : Service :=
  set_providers
    [("zefoy", set_lastActionTime 10000 (newProvider "zefoy" 30000));
     ("freer", set_lastActionTime 50000 (newProvider "freer" 25000))]
    (newService env_unset).

(** ** The rest of the service: queries, shutdown, whole calls *)

(** A JavaScript number that is an integer or [NaN]. *)
Inductive JsNum :=
| NaN
| Num (n : Z).

(** [-x] *)
Definition js_neg (x : JsNum) : JsNum :=
  match x with
  | NaN => NaN
  | Num n => Num (- n)
  end.

(** [array.slice(start)]: [NaN] counts as 0, a negative start counts
    from the end, and the start is clamped to the array. *)
Definition array_slice {A} (start : JsNum) (l : list A) : list A :=
  let len := Z.of_nat (length l) in
  let relativeStart := match start with NaN => 0 | Num n => n end in
  let k :=
    if relativeStart <? 0 then Z.max (len + relativeStart) 0
    else Z.min relativeStart len in
  drop (Z.to_nat k) l.

(** [getTaskHistory(limit = 100)]; [None] is a call without argument. *)
Definition getTaskHistory (limit : option JsNum) (st : Service) : list nat :=
  array_slice (js_neg (default (Num 100) limit)) (taskHistory st).

(** [this.taskHistory.filter((t) => t.status === s).length] *)
Definition count_status (s : TaskStatus) (st : Service) : nat :=
  length
    (List.filter
       (fun ref =>
          match heap st !! ref with
          | Some t => TaskStatus_eqb (task_status t) s
          | None => false
          end)
       (taskHistory st)).

(** The [tasks] part of [getStats()]. *)
Record TaskCounts := {
  count_active : nat;
  count_total : nat;
  count_completed : nat;
  count_failed : nat;
  count_cancelled : nat;
}.

Definition getStats_tasks (st : Service) : TaskCounts :=
  {| count_active := size (activeTasks st);
     count_total := length (taskHistory st) + size (activeTasks st);
     count_completed := count_status Completed st;
     count_failed := count_status Failed st;
     count_cancelled := count_status Cancelled st |}.

(** [cleanup()].  [keys] is [this.activeTasks.keys()], the ids of the
    active tasks in the order of their insertion, which the map of the
    model does not record.  The iterator is live, and [cancelTask]
    deletes the key under the cursor only, so each key is visited. *)
Definition cleanup (keys : list string) (now : Z) (st : Service) : Service :=
  emit [LogInfo "TikTok service cleanup completed"]
    (foldl (fun st taskId => (cancelTask taskId now st).2) st keys).

(** [keys] lists the keys of the active store, each once. *)
Definition keys_of_active (keys : list string) (st : Service) : Prop :=
  NoDup keys /\ forall k, k ∈ keys <-> is_Some (activeTasks st !! k).

(** [performAction] from call to return with nothing else running in
    between: its three segments at the times [t0], [t1], [t2]. *)
Definition performAction_run
    (env : Env) (videoUrl : JsValue) (actionType : option string)
    (options : Options) (taskId sessionId : string)
    (outcome : BrowserOutcome) (t0 t1 t2 : Z) (st : Service)
  : Result * Service :=
  match performAction_begin env videoUrl actionType options taskId t0 st with
  | (Return r, st) => (r, st)
  | (Await (fr, provider), st) =>
      match performAction_selected fr provider sessionId t1 st with
      | (Return r, st) => (r, st)
      | (Await (fr, pref, call), st) =>
          performAction_resume env fr pref call outcome t2 st
      end
  end.


(** The test of [find] in [getTaskStatus] on one history entry. *)
Definition has_id (taskId : string) (st : Service) (ref : nat) : option Task :=
  match heap st !! ref with
  | Some t => if String.eqb (task_id t) taskId then Some t else None
  | None => None
  end.

(** The record that [performAction] creates. *)
Definition created_task
    (env : Env) (taskId url actionType : string) (options : Options) (now : Z)
  : Task :=
  {| task_id := taskId; task_videoUrl := url;
     task_actionType := actionType; task_options := options;
     task_status := Pending; task_createdAt := now; task_attempts := 0;
     task_maxAttempts :=
       maxAttempts_or (opt_maxAttempts options) (tiktok_maxRetries (config env));
     task_provider := None; task_error := None; task_completedAt := None;
     task_cancelledAt := None; task_result := None |}.

(** The object that the provider returns after a browser session. *)
Definition session_result
    (success : bool) (error : option string)
    (provider actionType url sessionId : string) (now : Z) : Result :=
  {| res_success := success; res_error := error;
     res_taskId := None; res_status := None; res_attempts := None;
     res_maxAttempts := None; res_provider := Some provider;
     res_actionType := Some actionType; res_videoUrl := Some url;
     res_sessionId := Some sessionId; res_timestamp := Some now |}.

(** The object that the provider returns when it refuses a call. *)
Definition refusal (provider actionType : string) : Result :=
  {| res_success := false; res_error := Some "Provider not available";
     res_taskId := None; res_status := None; res_attempts := None;
     res_maxAttempts := None; res_provider := Some provider;
     res_actionType := Some actionType; res_videoUrl := None;
     res_sessionId := None; res_timestamp := None |}.




(** The fields of the service other than what it has logged. *)
Definition fields (st : Service) :=
  (heap st, activeTasks st, taskHistory st, providers st, timers st).

(** ** BrowserManager

    [this.browsers] maps a session id to the browser and the page of
    the session and to the time of their creation.  Of the two handles
    the manager only asks whether the browser process still runs
    ([browser.process()]) and whether the page is closed
    ([page.isClosed()]).  What Puppeteer does when asked to launch or to
    close is given to each call as its outcome.  The calls to the logger
    are left out. *)

Record BrowserData := {
  bd_process : bool;
  bd_pageClosed : bool;
  bd_createdAt : Z;
}.

Inductive LaunchOutcome :=
| Launched
| LaunchThrew (message : string).

(** Whether [page.close()] and [browser.close()] throw when called. *)
Record CloseOutcome := {
  pageCloseThrows : bool;
  browserCloseThrows : bool;
}.

Definition closes_cleanly : CloseOutcome :=
  {| pageCloseThrows := false; browserCloseThrows := false |}.

Section BrowserManager.

(** [config.session.sessionTimeout] *)
Variable sessionTimeout : Z.

(** [launchBrowser(sessionId, options)]: the error it rethrows, if any,
    and the registry after the call. *)
Definition launchBrowser
    (sessionId : string) (outcome : LaunchOutcome) (now : Z)
    (browsers : gmap string BrowserData)
  : option string * gmap string BrowserData :=
  match outcome with
  | Launched =>
      (None,
       <[sessionId := {| bd_process := true; bd_pageClosed := false;
                         bd_createdAt := now |}]> browsers)
  | LaunchThrew message => (Some message, browsers)
  end.

(** [getBrowser(sessionId)] *)
Definition getBrowser (sessionId : string) (browsers : gmap string BrowserData)
  : option BrowserData :=
  browsers !! sessionId.

(** [closeBrowser(sessionId)] *)
Definition closeBrowser
    (sessionId : string) (outcome : CloseOutcome)
    (browsers : gmap string BrowserData)
  : bool * gmap string BrowserData :=
  match browsers !! sessionId with
  | None => (false, browsers)
  | Some browserData =>
      if negb (bd_pageClosed browserData) && pageCloseThrows outcome then
        (false, browsers)
      else if bd_process browserData && browserCloseThrows outcome then
        (false,
         <[sessionId := {| bd_process := bd_process browserData;
                           bd_pageClosed := true;
                           bd_createdAt := bd_createdAt browserData |}]>
           browsers)
      else (true, delete sessionId browsers)
  end.

(** [isBrowserValid(sessionId)] *)
Definition isBrowserValid
    (sessionId : string) (now : Z) (browsers : gmap string BrowserData) : bool :=
  match browsers !! sessionId with
  | None => false
  | Some browserData =>
      bd_process browserData && negb (bd_pageClosed browserData)
      && (now - bd_createdAt browserData <? sessionTimeout)
  end.

(** [getStats()] of the manager. *)
Record BrowserStats := {
  totalBrowsers : nat;
  activeSessions : nat;
  expiredSessions : nat;
}.

Definition browser_getStats (now : Z) (browsers : gmap string BrowserData)
  : BrowserStats :=
  foldl
    (fun stats (entry : string * BrowserData) =>
       if isBrowserValid entry.1 now browsers then
         {| totalBrowsers := totalBrowsers stats;
            activeSessions := activeSessions stats + 1;
            expiredSessions := expiredSessions stats |}
       else
         {| totalBrowsers := totalBrowsers stats;
            activeSessions := activeSessions stats;
            expiredSessions := expiredSessions stats + 1 |})
    {| totalBrowsers := size browsers; activeSessions := 0;
       expiredSessions := 0 |}
    (map_to_list browsers).

(** The sessions that [cleanupExpiredSessions] collects. *)
Definition timed_out (now : Z) (browserData : BrowserData) : bool :=
  sessionTimeout <=? now - bd_createdAt browserData.

(** [cleanupExpiredSessions()]: the count it returns and the registry
    once every [closeBrowser] has settled.  The calls run side by side,
    each on a key of its own, so the order in which they end does not
    show in the registry. *)
Definition cleanupExpiredSessions
    (now : Z) (outcomes : string -> CloseOutcome)
    (browsers : gmap string BrowserData)
  : nat * gmap string BrowserData :=
  let expiredSessions :=
    (List.filter (fun entry : string * BrowserData => timed_out now entry.2)
       (map_to_list browsers)).*1 in
  (length expiredSessions,
   foldl (fun browsers sessionId =>
            (closeBrowser sessionId (outcomes sessionId) browsers).2)
     browsers expiredSessions).

(** [closeAllBrowsers()] *)
Definition closeAllBrowsers
    (outcomes : string -> CloseOutcome) (browsers : gmap string BrowserData)
  : gmap string BrowserData :=
  foldl (fun browsers sessionId =>
           (closeBrowser sessionId (outcomes sessionId) browsers).2)
    browsers (map_to_list browsers).*1.

End BrowserManager.

(** ** The cookie file

    The file at [config.session.cookiePath]: absent, not readable as
    JSON, or an object from session ids to arrays of cookies. *)

Inductive CookieFile (Cookie : Type) :=
| NoFile
| BadJson
| Json (allCookies : gmap string (list Cookie)).
Arguments NoFile {Cookie}.
Arguments BadJson {Cookie}.
Arguments Json {Cookie} allCookies.

Section Cookies.

Context {Cookie : Type}.

(** [loadCookies(sessionId, page)]: its result and the cookies it has
    handed to [page.setCookie], if it got that far.  [setCookieThrows]
    tells whether that call throws. *)
Definition loadCookies
    (sessionId : string) (setCookieThrows : bool) (file : CookieFile Cookie)
  : bool * option (list Cookie) :=
  match file with
  | NoFile => (false, None)
  | BadJson => (false, None)
  | Json cookies =>
      match cookies !! sessionId with
      | None => (false, None)
      | Some sessionCookies =>
          if (length sessionCookies =? 0)%nat then (false, None)
          else if setCookieThrows then (false, Some sessionCookies)
          else (true, Some sessionCookies)
      end
  end.

(** [saveCookies(sessionId, page)]: its result and the file after the
    call.  [pageCookies] is what [page.cookies()] returns ([None] when
    it throws); [writeThrows] is [None] when the file is written, and
    otherwise the state in which the failed write leaves the file. *)
Definition saveCookies
    (sessionId : string) (pageCookies : option (list Cookie))
    (writeThrows : option (CookieFile Cookie)) (file : CookieFile Cookie)
  : bool * CookieFile Cookie :=
  match pageCookies with
  | None => (false, file)
  | Some cookies =>
      match file with
      | BadJson => (false, file)
      | NoFile =>
          match writeThrows with
          | None => (true, Json (<[sessionId := cookies]> ∅))
          | Some remains => (false, remains)
          end
      | Json allCookies =>
          match writeThrows with
          | None => (true, Json (<[sessionId := cookies]> allCookies))
          | Some remains => (false, remains)
          end
      end
  end.

End Cookies.

(** * Properties *)

(** ** The provider: availability check and circuit breaker *)

Lemma checkAvailability_same_provider now p :
  (checkAvailability now p).1.2 = p.
Proof.
  unfold checkAvailability.
  destruct (isAvailable p); simpl; [|reflexivity].
  destruct (now - lastActionTime p <? betweenActions p); reflexivity.
Qed.

Lemma checkAvailability_value now p :
  (checkAvailability now p).1.1
  = isAvailable p && (betweenActions p <=? now - lastActionTime p).
Proof.
  unfold checkAvailability.
  destruct (isAvailable p); simpl; [|reflexivity].
  destruct (Z.ltb_spec (now - lastActionTime p) (betweenActions p));
    destruct (Z.leb_spec (betweenActions p) (now - lastActionTime p));
    simpl; try reflexivity; lia.
Qed.

(** C9.  [checkAvailability()] answers false when the circuit is open,
    answers false when the last action is more recent than the delay
    between actions, and in every case leaves each field of the provider
    as it was. *)
Theorem checkAvailability_frame (now : Z) (p : Provider) :
  (isAvailable p = false -> (checkAvailability now p).1.1 = false)
  /\ (now - lastActionTime p < betweenActions p ->
      (checkAvailability now p).1.1 = false)
  /\ let p' := (checkAvailability now p).1.2 in
     isAvailable p' = isAvailable p
     /\ errorCount p' = errorCount p
     /\ actionCount p' = actionCount p
     /\ lastActionTime p' = lastActionTime p
     /\ p' = p.
Proof.
  rewrite checkAvailability_value, checkAvailability_same_provider.
  split; [|split].
  - intros ->. reflexivity.
  - intros Hlt. apply andb_false_iff. right. apply Z.leb_gt. exact Hlt.
  - simpl. repeat split.
Qed.

Lemma checkAvailability_frame_witness :
  let p := set_lastActionTime 90000 (newProvider "zefoy" 30000) in
  (checkAvailability 100000 p).1.1 = false
  /\ (checkAvailability 100000 (set_isAvailable false p)).1.1 = false
  /\ (checkAvailability 100000 p).1.2 = p.
Proof.
  intros p.
  pose proof (checkAvailability_frame 100000 p) as (_ & Hrate & Hsame).
  pose proof (checkAvailability_frame 100000 (set_isAvailable false p))
    as (Hopen & _ & _).
  split; [apply Hrate; vm_compute; reflexivity|].
  split; [apply Hopen; reflexivity|].
  apply Hsame.
Defined.

Lemma updateStats_stays_unavailable env success now p :
  isAvailable p = false -> isAvailable (updateStats env success now p).1 = false.
Proof.
  intros H. unfold updateStats. destruct success; simpl; [exact H|].
  destruct (_ >=? _); simpl; [reflexivity | exact H].
Qed.

Lemma run_op_stays_unavailable env p op :
  isAvailable p = false -> isAvailable (run_op env p op) = false.
Proof.
  intros H. destruct op as [now|success now|now|v a s now|v a s o now]; simpl.
  - rewrite checkAvailability_same_provider. exact H.
  - apply updateStats_stays_unavailable, H.
  - exact H.
  - unfold zefoy_performAction_begin.
    pose proof (checkAvailability_same_provider now p) as E.
    destruct (checkAvailability now p) as [[ok q] evs]. simpl in E. subst q.
    destruct ok; simpl; [|exact H].
    destruct (validateVideoUrl _); simpl; exact H.
  - unfold zefoy_performAction_end.
    pose proof (updateStats_stays_unavailable env) as U.
    destruct o as [|msg].
    + specialize (U true now p H). destruct (updateStats env true now p). exact U.
    + specialize (U false now p H). destruct (updateStats env false now p). exact U.
Qed.

Lemma failures_errorCount env times p :
  errorCount (failures env times p) = errorCount p + Z.of_nat (length times).
Proof.
  revert p. induction times as [|now times IH]; intros p.
  - simpl. lia.
  - unfold failures in *. cbn [foldl length]. rewrite IH.
    unfold updateStats. simpl. destruct (_ >=? _); simpl; lia.
Qed.

Lemma failures_snoc env times now p :
  failures env (times ++ [now]) p
  = (updateStats env false now (failures env times p)).1.
Proof. unfold failures. rewrite foldl_app. reflexivity. Qed.

(** The circuit breaker on the provider object alone. *)
Lemma provider_circuit_breaker (env : Env) :
  (forall now p,
      tiktok_maxRetries (config env) <= errorCount p + 1 ->
      isAvailable (updateStats env false now p).1 = false)
  /\ (forall times p,
      times <> [] ->
      tiktok_maxRetries (config env) <= errorCount p + Z.of_nat (length times) ->
      errorCount (failures env times p) = errorCount p + Z.of_nat (length times)
      /\ isAvailable (failures env times p) = false)
  /\ (forall ops p,
      isAvailable p = false -> isAvailable (run_ops env ops p) = false)
  /\ (forall p,
      isAvailable (resetAvailability p).1 = true
      /\ errorCount (resetAvailability p).1 = 0)
  /\ (forall now p, errorCount (updateStats env true now p).1 = 0).
Proof.
  assert (Hone : forall now p,
      tiktok_maxRetries (config env) <= errorCount p + 1 ->
      isAvailable (updateStats env false now p).1 = false).
  { intros now p Hle. unfold updateStats. simpl in *.
    destruct (Z.geb_spec (errorCount p + 1) (or_default (MAX_RETRIES env) 3));
      [reflexivity | lia]. }
  split; [exact Hone|]. split; [|split; [|split]].
  - intros times p Hne Hle. split; [apply failures_errorCount|].
    destruct (exists_last Hne) as (times' & now & ->).
    rewrite failures_snoc. apply Hone.
    rewrite failures_errorCount. rewrite length_app in Hle.
    cbn [length] in Hle. lia.
  - intros ops. unfold run_ops.
    induction ops as [|op ops IH]; intros p H; [exact H|].
    simpl. apply IH, run_op_stays_unavailable, H.
  - intros p. split; reflexivity.
  - intros now p. reflexivity.
Qed.

(** ** Completion: the two stores and the bound on the history *)

Lemma slice_last_length {A} (n : nat) (l : list A) :
  length (slice_last n l) = Nat.min n (length l).
Proof. unfold slice_last. rewrite length_drop. lia. Qed.

Lemma slice_last_short {A} (n : nat) (l : list A) :
  (length l <= n)%nat -> slice_last n l = l.
Proof.
  intros H. unfold slice_last.
  replace (length l - n)%nat with 0%nat by lia. reflexivity.
Qed.

Lemma slice_last_snoc {A} (n : nat) (l : list A) (x : A) :
  slice_last n (slice_last n l ++ [x]) = slice_last n (l ++ [x]).
Proof.
  destruct (Nat.le_gt_cases (length l) n) as [Hle|Hgt].
  - rewrite (slice_last_short n l Hle). reflexivity.
  - unfold slice_last at 1 3.
    rewrite !length_app, slice_last_length. cbn [length].
    unfold slice_last.
    rewrite !skipn_app, drop_drop, !length_drop.
    f_equal; f_equal; lia.
Qed.

Lemma slice_last_last {A} (n : nat) (l : list A) (x : A) :
  (0 < n)%nat -> last (slice_last n (l ++ [x])) = Some x.
Proof.
  intros Hn. unfold slice_last. rewrite length_app. cbn [length].
  rewrite drop_app_le by lia. apply last_snoc.
Qed.

Lemma completeTask_taskHistory taskId task st :
  taskHistory (completeTask taskId task st)
  = slice_last historyLimit (taskHistory st ++ [task]).
Proof.
  unfold completeTask. cbn [taskHistory set_taskHistory set_activeTasks].
  destruct (Nat.ltb_spec historyLimit (length (taskHistory st ++ [task])))
    as [Hlt|Hge].
  - case_match; reflexivity.
  - rewrite slice_last_short by exact Hge. case_match; reflexivity.
Qed.

Lemma completeTask_activeTasks taskId task st :
  activeTasks (completeTask taskId task st) = delete taskId (activeTasks st).
Proof.
  unfold completeTask. cbn [taskHistory set_taskHistory set_activeTasks].
  destruct (_ <? _)%nat; case_match; reflexivity.
Qed.

Lemma completeTask_heap taskId task st :
  heap (completeTask taskId task st) = heap st.
Proof.
  unfold completeTask. cbn [taskHistory set_taskHistory set_activeTasks].
  destruct (_ <? _)%nat; case_match; reflexivity.
Qed.

Lemma completeTask_providers taskId task st :
  providers (completeTask taskId task st) = providers st.
Proof.
  unfold completeTask. cbn [taskHistory set_taskHistory set_activeTasks].
  destruct (_ <? _)%nat; case_match; reflexivity.
Qed.

Lemma completeTask_timers taskId task st :
  timers (completeTask taskId task st) = timers st.
Proof.
  unfold completeTask. cbn [taskHistory set_taskHistory set_activeTasks].
  destruct (_ <? _)%nat; case_match; reflexivity.
Qed.

Lemma slice_last_app {A} (n : nat) (a b : list A) :
  slice_last n (slice_last n a ++ b) = slice_last n (a ++ b).
Proof.
  induction b as [|c b IH] using rev_ind.
  - rewrite !app_nil_r. apply slice_last_short.
    rewrite slice_last_length. lia.
  - rewrite !app_assoc. rewrite <- slice_last_snoc, IH.
    apply slice_last_snoc.
Qed.




(** ** Cancellation *)

Lemma modify_task_lookup ref f st :
  heap (modify_task ref f st) !! ref = f <$> heap st !! ref.
Proof. unfold modify_task. cbn [heap set_heap]. apply list_lookup_alter_eq. Qed.

(** C7.  [cancelTask] on a task of the active store marks it
    cancelled, stamps [cancelledAt], takes it out of the active store,
    appends it to the history and answers true; on an id that the
    active store does not hold it answers false and changes nothing; so
    a second cancellation of the same task answers false. *)
Theorem cancelTask_spec (taskId : string) (now now' : Z) (st : Service) :
  (forall task t,
      activeTasks st !! taskId = Some task ->
      heap st !! task = Some t ->
      let st' := (cancelTask taskId now st).2 in
      (cancelTask taskId now st).1 = true
      /\ heap st' !! task
         = Some (set_cancelledAt (Some now) (set_status Cancelled t))
      /\ activeTasks st' = delete taskId (activeTasks st)
      /\ taskHistory st' = slice_last historyLimit (taskHistory st ++ [task])
      /\ last (taskHistory st') = Some task
      /\ (cancelTask taskId now' st').1 = false)
  /\ (activeTasks st !! taskId = None -> cancelTask taskId now st = (false, st)).
Proof.
  split.
  - intros task t Hactive Hheap.
    set (f := fun t => set_cancelledAt (Some now) (set_status Cancelled t)).
    set (st1 := completeTask taskId task (modify_task task f st)).
    assert (Hlook : heap st1 !! task = Some (f t)).
    { subst st1. rewrite completeTask_heap, modify_task_lookup, Hheap.
      reflexivity. }
    assert (E : cancelTask taskId now st
                = (true,
                   emit [LogTikTokAction (task_actionType (f t))
                           (task_videoUrl (f t))
                           (string_or (task_provider (f t)) "system")
                           "cancelled"] st1)).
    { unfold cancelTask. rewrite Hactive. fold f. fold st1.
      rewrite Hlook. reflexivity. }
    rewrite E. cbn [fst snd emit set_logged heap activeTasks taskHistory].
    assert (Hdel : activeTasks st1 = delete taskId (activeTasks st)).
    { subst st1. rewrite completeTask_activeTasks. reflexivity. }
    assert (Hhist : taskHistory st1
                    = slice_last historyLimit (taskHistory st ++ [task])).
    { subst st1. rewrite completeTask_taskHistory. reflexivity. }
    repeat split.
    + exact Hlook.
    + exact Hdel.
    + exact Hhist.
    + rewrite Hhist. apply slice_last_last. unfold historyLimit. lia.
    + unfold cancelTask. cbn [activeTasks emit set_logged].
      rewrite Hdel, lookup_delete_eq. reflexivity.
  - intros Hnone. unfold cancelTask. rewrite Hnone. reflexivity.
Qed.

Lemma cancelTask_spec_witness :
  let st := (demo_submitted MaxAttemptsUndefined).2 in
  (cancelTask "task-1" 100500 st).1 = true
  /\ (cancelTask "task-1" 100600 (cancelTask "task-1" 100500 st).2).1 = false
  /\ cancelTask "task-9" 100500 st = (false, st).
Proof.
  intros st.
  destruct (cancelTask_spec "task-1" 100500 100600 st) as [Hin _].
  destruct (cancelTask_spec "task-9" 100500 100600 st) as [_ Hout].
  edestruct (Hin 0%nat) as (Htrue & _ & _ & _ & _ & Hfalse);
    [vm_compute; reflexivity | vm_compute; reflexivity |].
  split; [exact Htrue|]. split; [exact Hfalse|].
  apply Hout. vm_compute. reflexivity.
Defined.

(** ** Submission: validation and creation of the task *)

(** The URLs of the test suite: the valid ones pass and the invalid
    ones fail; the scheme and the host match in any case. *)
Example validateVideoUrl_tests :
  forallb validateVideoUrl
    [JsString "https://www.tiktok.com/@username/video/1234567890";
     JsString "https://tiktok.com/@username/video/1234567890";
     JsString "https://vm.tiktok.com/abc123/";
     JsString "https://vt.tiktok.com/xyz789/";
     JsString "HTTP://WWW.TikTok.com/x"] = true
  /\ existsb validateVideoUrl
       [JsString "https://youtube.com/watch?v=123";
        JsString "https://instagram.com/p/abc123/";
        JsString "not-a-url";
        JsString "";
        JsNull;
        JsUndefined;
        JsString "https://www.tiktok.com/";
        JsString "https://www.vm.tiktok.com"] = false.
Proof. split; vm_compute; reflexivity. Qed.

Lemma availableFrom_providers now i ps :
  (availableFrom now i ps).1.2 = ps.
Proof.
  revert i. induction ps as [|[name p] ps IH]; intros i; [reflexivity|].
  cbn [availableFrom].
  pose proof (checkAvailability_same_provider now p) as E.
  destruct (checkAvailability now p) as [[ok q] evs]. simpl in E. subst q.
  specialize (IH (S i)).
  destruct (availableFrom now (S i) ps) as [[rest ps''] evs'].
  simpl in *. rewrite IH. reflexivity.
Qed.

Lemma findAvailableProvider_frame actionType now st :
  let st' := (findAvailableProvider actionType now st).2 in
  heap st' = heap st /\ activeTasks st' = activeTasks st
  /\ taskHistory st' = taskHistory st /\ providers st' = providers st
  /\ timers st' = timers st.
Proof.
  unfold findAvailableProvider.
  pose proof (availableFrom_providers now 0 (providers st)) as E.
  destruct (availableFrom now 0 (providers st)) as [[avail ps] evs].
  simpl in E. subst ps.
  destruct (length avail =? 0)%nat; simpl; repeat split.
Qed.

(** C6.  A target that fails [validateVideoUrl] (the empty string, a
    wrong scheme, an unrelated domain, [null] and every value that is
    not a string are such targets) and an action type outside the list
    of actions make [performAction] return a failure at once: the
    report does not depend on the state of the service, so no provider
    was asked, and the state, with its active store and its history, is
    the one before the call. *)
Theorem performAction_rejects_invalid
    (env : Env) (videoUrl : JsValue) (actionType : option string)
    (options : Options) (taskId : string) (now : Z) :
  (validateVideoUrl videoUrl = false
   \/ includes (default "views" actionType) getAvailableActions = false ->
   exists error,
     forall st,
       performAction_begin env videoUrl actionType options taskId now st
       = (Return (failure error None now), st))
  /\ validateVideoUrl (JsString "") = false
  /\ validateVideoUrl (JsString "ftp://www.tiktok.com/@u/video/123") = false
  /\ validateVideoUrl (JsString "https://youtube.com/watch?v=123") = false
  /\ validateVideoUrl JsNull = false
  /\ (forall v, is_string v = false -> validateVideoUrl v = false).
Proof.
  split; [|repeat split; try reflexivity].
  - intros Hbad. unfold performAction_begin.
    destruct (validateVideoUrl videoUrl) eqn:Hurl.
    + destruct Hbad as [Hbad|Hbad]; [discriminate|]. rewrite Hbad.
      eexists. intros st. reflexivity.
    + eexists. intros st. reflexivity.
  - intros v Hv. unfold validateVideoUrl. rewrite Hv.
    rewrite orb_true_r. reflexivity.
Qed.

Lemma performAction_rejects_invalid_witness :
  let st := newService env_unset in
  performAction_begin env_unset (JsString "https://youtube.com/watch?v=123")
    (Some "views") (demo_options MaxAttemptsUndefined) "task-1" 100000 st
  = (Return (failure "Invalid TikTok video URL" None 100000), st)
  /\ performAction_begin env_unset demo_url (Some "subscribers")
       (demo_options MaxAttemptsUndefined) "task-1" 100000 st
     = (Return (failure "Invalid action type: subscribers" None 100000), st).
Proof.
  intros st.
  pose proof (performAction_rejects_invalid env_unset
                (JsString "https://youtube.com/watch?v=123") (Some "views")
                (demo_options MaxAttemptsUndefined) "task-1" 100000) as [Hurl _].
  pose proof (performAction_rejects_invalid env_unset
                demo_url (Some "subscribers")
                (demo_options MaxAttemptsUndefined) "task-1" 100000) as [Hact _].
  destruct Hurl as [e1 H1]; [left; vm_compute; reflexivity|].
  destruct Hact as [e2 H2]; [right; vm_compute; reflexivity|].
  split.
  - rewrite H1. specialize (H1 st). unfold performAction_begin in H1.
    change (validateVideoUrl (JsString "https://youtube.com/watch?v=123"))
      with false in H1.
    simpl in H1. injection H1 as <-. reflexivity.
  - rewrite H2. specialize (H2 st). unfold performAction_begin in H2.
    change (validateVideoUrl demo_url) with true in H2.
    simpl in H2. injection H2 as <-. reflexivity.
Defined.

Lemma validateVideoUrl_non_string v :
  is_string v = false -> validateVideoUrl v = false.
Proof.
  intros Hv. unfold validateVideoUrl. rewrite Hv, orb_true_r. reflexivity.
Qed.


Lemma performAction_begin_creates
    env videoUrl actionType options taskId now st k st' :
  performAction_begin env videoUrl actionType options taskId now st
  = (Await k, st') ->
  exists url,
    videoUrl = JsString url
    /\ fr_task k.1 = length (heap st)
    /\ fr_taskId k.1 = taskId
    /\ activeTasks st' = <[taskId := length (heap st)]> (activeTasks st)
    /\ taskHistory st' = taskHistory st
    /\ heap st'
       = heap st ++
         [{| task_id := taskId; task_videoUrl := url;
             task_actionType := default "views" actionType;
             task_options := options;
             task_status := Pending; task_createdAt := now;
             task_attempts := 0;
             task_maxAttempts :=
               maxAttempts_or (opt_maxAttempts options)
                 (tiktok_maxRetries (config env));
             task_provider := None; task_error := None;
             task_completedAt := None; task_cancelledAt := None;
             task_result := None |}].
Proof.
  unfold performAction_begin.
  destruct (validateVideoUrl videoUrl) eqn:Hurl; [|discriminate].
  destruct (includes _ _); [|discriminate].
  cbn [negb].
  destruct videoUrl as [| |b|n|url|];
    try (rewrite validateVideoUrl_non_string in Hurl by reflexivity;
         discriminate Hurl).
  match goal with
  | |- context [findAvailableProvider ?a ?n ?s] =>
      pose proof (findAvailableProvider_frame a n s) as (Hh & Ha & Hi & _ & _);
      destruct (findAvailableProvider a n s) as [provider st1]
  end.
  cbn [snd] in *. intros [= <- <-].
  exists url. cbn [fst fr_task fr_taskId].
  rewrite Hh, Ha, Hi. repeat split.
Qed.




(** ** The retry callback *)




(** What [retryTask] does once the provider has answered: whatever the
    answer and whatever the counters, the task leaves the active store
    and no timer is added. *)
Lemma retryTask_resume_is_final
    env taskId task provider call outcome now st t kp :
  heap st !! task = Some t ->
  providers st !! provider = Some kp ->
  let st' := retryTask_resume env taskId task provider call outcome now st in
  activeTasks st' = delete taskId (activeTasks st)
  /\ timers st' = timers st
  /\ taskHistory st' = slice_last historyLimit (taskHistory st ++ [task]).
Proof.
  intros Hheap Hprov. unfold retryTask_resume. rewrite Hheap.
  unfold executeAction_end. rewrite Hprov. destruct kp as [key p].
  destruct (match call with
            | CallResolved r => (r, p, [])
            | CallInBrowser sessionId =>
                zefoy_performAction_end env (task_videoUrl t) (task_actionType t)
                  sessionId outcome now p
            end) as [[result q] evs].
  cbv zeta.
  rewrite completeTask_activeTasks, completeTask_timers, completeTask_taskHistory.
  destruct (res_success result); repeat split.
Qed.

(** ** Selection of a provider *)



Section SortHead.

Context {A : Type} (cmp : A -> A -> Z).
Hypothesis cmp_refl : forall x, cmp x x <= 0.
Hypothesis cmp_trans : forall x y z, cmp x y <= 0 -> cmp y z <= 0 -> cmp x z <= 0.
Hypothesis cmp_total : forall x y, cmp x y <= 0 \/ cmp y x <= 0.


End SortHead.

Lemma availableFrom_elem now k ps i p :
  (i, p) ∈ (availableFrom now k ps).1.1 <->
  (k <= i)%nat
  /\ (exists name, ps !! (i - k)%nat = Some (name, p))
  /\ (checkAvailability now p).1.1 = true.
Proof.
  revert k. induction ps as [|[name q] ps IH]; intros k.
  - simpl. split; [intros H; inversion H|].
    intros (_ & (name & H) & _). discriminate.
  - cbn [availableFrom].
    pose proof (checkAvailability_same_provider now q) as E.
    destruct (checkAvailability now q) as [[ok q'] evs] eqn:Hq.
    simpl in E. subst q'.
    specialize (IH (S k)).
    destruct (availableFrom now (S k) ps) as [[rest ps''] evs'].
    cbn [fst snd] in *.
    assert (Hrest : (i, p) ∈ rest <->
                    (k < i)%nat
                    /\ (exists name', ((name, q) :: ps) !! (i - k)%nat
                                      = Some (name', p))
                    /\ (checkAvailability now p).1.1 = true).
    { rewrite IH. split.
      - intros (Hk & (n & Hl) & Hc). split; [lia|]. split; [|exact Hc].
        exists n. replace (i - k)%nat with (S (i - S k)) by lia. exact Hl.
      - intros (Hk & (n & Hl) & Hc). split; [lia|]. split; [|exact Hc].
        exists n. replace (i - k)%nat with (S (i - S k)) in Hl by lia.
        exact Hl. }
    assert (Hhere : (i, p) = (k, q) /\ ok = true <->
                    i = k
                    /\ (exists name', ((name, q) :: ps) !! (i - k)%nat
                                      = Some (name', p))
                    /\ (checkAvailability now p).1.1 = true).
    { split.
      - intros [[= -> ->] ->]. split; [reflexivity|].
        rewrite Nat.sub_diag. split; [exists name; reflexivity|].
        rewrite Hq. reflexivity.
      - intros (-> & (n & Hl) & Hc). rewrite Nat.sub_diag in Hl.
        injection Hl as -> ->. rewrite Hq in Hc. simpl in Hc.
        split; [reflexivity | exact Hc]. }
    destruct ok.
    + rewrite elem_of_cons, Hrest. split.
      * intros [Heq|(Hk & Hn & Hc)].
        -- destruct Hhere as [Hhere _].
           destruct (Hhere (conj Heq eq_refl)) as (-> & Hn & Hc).
           split; [lia|]. split; assumption.
        -- split; [lia|]. split; assumption.
      * intros (Hk & Hn & Hc).
        destruct (decide (i = k)) as [->|Hne].
        -- left. destruct Hhere as [_ Hhere].
           destruct Hhere as [Heq _]; [|exact Heq].
           split; [reflexivity|]. split; assumption.
        -- right. split; [lia|]. split; assumption.
    + rewrite Hrest. split.
      * intros (Hk & Hn & Hc). split; [lia|]. split; assumption.
      * intros (Hk & Hn & Hc).
        destruct (decide (i = k)) as [->|Hne].
        -- destruct Hhere as [_ Hhere].
           destruct Hhere as [_ Hfalse]; [|discriminate].
           split; [reflexivity|]. split; assumption.
        -- split; [lia|]. split; assumption.
Qed.


(** ** The runs on which the code departs from its description *)

(** C1.  With [maxAttempts] 3 and a provider that fails at every
    attempt, the first failure reports [retrying] with [attempts] 1 and
    sets the timer; the failure of the retry ends the task: it is
    [failed] with [attempts] 2, out of the active store, in the history,
    and no timer is left.  There has been one [retrying] report, not
    two, and [attempts] has not reached [maxAttempts]. *)
Theorem always_failing_task_retries_once :
  (exists report st,
      demo_first_failure (MaxAttemptsNumber 3) = Some (report, st)
      /\ res_status report = Some Retrying
      /\ res_attempts report = Some 1
      /\ res_maxAttempts report = Some 3
      /\ timers st = [(135000, "task-1")])
  /\ (exists st task,
      demo_second_failure (MaxAttemptsNumber 3) = Some st
      /\ heap st !! 0%nat = Some task
      /\ task_status task = Failed
      /\ task_attempts task = 2
      /\ task_maxAttempts task = 3
      /\ activeTasks st = ∅
      /\ taskHistory st = [0%nat]
      /\ timers st = []
      /\ retrying_reports st = 1%nat).
Proof.
  split.
  - eexists. eexists. split; [vm_compute; reflexivity|].
    repeat split.
  - eexists. eexists. split; [vm_compute; reflexivity|].
    split; [vm_compute; reflexivity|].
    repeat split.
Qed.

(** C2.  Of two available providers without errors, "zefoy" idle for
    90000 and "freer" idle for 50000, [findAvailableProvider] returns
    "freer", the one that acted most recently, not the one idle
    longest. *)
Theorem selection_prefers_most_recent :
  let st := demo_two_providers in
  (checkAvailability 100000 (set_lastActionTime 10000 (newProvider "zefoy" 30000))).1.1
  = true
  /\ (checkAvailability 100000 (set_lastActionTime 50000 (newProvider "freer" 25000))).1.1
     = true
  /\ (findAvailableProvider "views" 100000 st).1 = Some 1%nat
  /\ provider_name 1 st = "freer"
  /\ (stats_timeSinceLastAction <$>
        (provider_getStats 100000 <$> (snd <$> providers st)))
     = [90000; 50000].
Proof. vm_compute. repeat split. Qed.

(** C3.  A task cancelled while its provider call is in flight goes to
    the history at the cancellation and, when the call comes back, a
    second time: the history holds the same task record twice, and the
    record, cancelled at 110000, ends as completed at 130000. *)
Theorem cancel_in_flight_completes_twice :
  exists result st task,
    demo_cancel_in_flight = Some (true, result, st)
    /\ res_success result = true
    /\ activeTasks st = ∅
    /\ taskHistory st = [0%nat; 0%nat]
    /\ heap st = [task]
    /\ task_id task = "task-1"
    /\ task_status task = Completed
    /\ task_cancelledAt task = Some 110000
    /\ task_completedAt task = Some 130000.
Proof.
  eexists. eexists. eexists. split; [vm_compute; reflexivity|].
  split; [reflexivity|]. split; [reflexivity|]. split; [reflexivity|].
  split; [vm_compute; reflexivity|]. repeat split.
Qed.

(** ** The circuit breaker seen from the service *)

Lemma circuit_open_same_providers i st st' :
  providers st' = providers st -> circuit_open i st -> circuit_open i st'.
Proof. unfold circuit_open. intros ->. exact id. Qed.

Lemma circuit_open_put_provider i ref key p q st :
  providers st !! ref = Some (key, p) ->
  (isAvailable p = false -> isAvailable q = false) ->
  circuit_open i st -> circuit_open i (put_provider ref q st).
Proof.
  intros Hp Hq (kp & Hi & Hclosed). unfold circuit_open, put_provider.
  cbn [providers set_providers].
  destruct (decide (ref = i)) as [->|Hne].
  - rewrite list_lookup_alter_eq, Hi. eexists. split; [reflexivity|].
    rewrite Hp in Hi. injection Hi as <-. apply Hq, Hclosed.
  - rewrite list_lookup_alter_ne by exact Hne. exists kp. split; assumption.
Qed.

Lemma executeAction_begin_circuit_open i provider videoUrl actionType sessionId now st :
  circuit_open i st ->
  circuit_open i
    (executeAction_begin provider videoUrl actionType sessionId now st).2.
Proof.
  intros H. unfold executeAction_begin.
  destruct (providers st !! provider) as [[key p]|] eqn:Hp; [|exact H].
  pose proof (run_op_stays_unavailable env_unset p
                (OpPerformBegin videoUrl actionType sessionId now)) as Hop.
  cbn [run_op] in Hop.
  destruct (zefoy_performAction_begin _ _ _ _ p) as [[call q] evs].
  cbn [fst snd] in *.
  apply circuit_open_same_providers
    with (st := put_provider provider q st); [reflexivity|].
  eapply circuit_open_put_provider; eassumption.
Qed.

Lemma executeAction_end_circuit_open
    env i provider videoUrl actionType call outcome now st :
  circuit_open i st ->
  circuit_open i
    (executeAction_end env provider videoUrl actionType call outcome now st).2.
Proof.
  intros H. unfold executeAction_end.
  destruct (providers st !! provider) as [[key p]|] eqn:Hp; [|exact H].
  assert (Hq : forall sessionId,
             isAvailable p = false ->
             isAvailable
               (zefoy_performAction_end env videoUrl actionType sessionId
                  outcome now p).1.2 = false).
  { intros sessionId.
    exact (run_op_stays_unavailable env p
             (OpPerformEnd videoUrl actionType sessionId outcome now)). }
  destruct call as [r|sessionId].
  - cbn [fst snd].
    apply circuit_open_same_providers
      with (st := put_provider provider p st); [reflexivity|].
    eapply circuit_open_put_provider; [exact Hp | exact id | exact H].
  - specialize (Hq sessionId).
    destruct (zefoy_performAction_end _ _ _ _ _ _ p) as [[result q] evs].
    cbn [fst snd] in *.
    apply circuit_open_same_providers
      with (st := put_provider provider q st); [reflexivity|].
    eapply circuit_open_put_provider; eassumption.
Qed.

(** A state that differs from [st0] in fields other than [providers]
    has the circuits that [st0] has. *)
Ltac same_providers_as st0 :=
  apply circuit_open_same_providers with (st := st0);
  [ rewrite ?completeTask_providers; reflexivity | ].

Lemma performAction_begin_providers
    env videoUrl actionType options taskId now st :
  providers (performAction_begin env videoUrl actionType options taskId now st).2
  = providers st.
Proof.
  unfold performAction_begin.
  destruct (validateVideoUrl videoUrl); [|reflexivity].
  destruct (includes _ _); [|reflexivity].
  cbn [negb].
  match goal with
  | |- context [findAvailableProvider ?a ?n ?s] =>
      pose proof (findAvailableProvider_frame a n s) as (_ & _ & _ & Hp & _);
      destruct (findAvailableProvider a n s) as [provider st1]
  end.
  cbn [snd] in *. rewrite Hp. reflexivity.
Qed.

Lemma cancelTask_providers taskId now st :
  providers (cancelTask taskId now st).2 = providers st.
Proof.
  unfold cancelTask. destruct (activeTasks st !! taskId); [|reflexivity].
  case_match; cbn [snd emit set_logged providers];
    rewrite completeTask_providers; reflexivity.
Qed.

Lemma retryTask_begin_circuit_open i taskId sessionId now st :
  circuit_open i st -> circuit_open i (retryTask_begin taskId sessionId now st).2.
Proof.
  intros H. unfold retryTask_begin.
  destruct (activeTasks st !! taskId) as [ref|]; [|exact H].
  destruct (heap st !! ref) as [task|]; [|exact H].
  destruct (negb _); [exact H|].
  match goal with
  | |- context [match ?found with Some _ => _ | None => _ end] =>
      destruct found as [pref|]
  end.
  - match goal with
    | |- context [executeAction_begin ?p ?u ?a ?s ?n ?s0] =>
        pose proof (executeAction_begin_circuit_open i p u a s n s0) as Hexec;
        destruct (executeAction_begin p u a s n s0) as [[call|] st1]
    end; cbn [snd] in *; apply Hexec; same_providers_as st; exact H.
  - cbn [snd]. same_providers_as st. exact H.
Qed.

Lemma run_call_circuit_open env i st c :
  circuit_open i st -> circuit_open i (run_call env st c).
Proof.
  intros H.
  destruct c as [videoUrl actionType options taskId now
                |fr provider sessionId now
                |fr provider call outcome now
                |k sessionId now
                |taskId task provider call outcome now
                |taskId now]; cbn [run_call].
  - eapply circuit_open_same_providers;
      [apply performAction_begin_providers | exact H].
  - unfold performAction_selected. destruct provider as [pref|].
    + match goal with
      | |- context [executeAction_begin ?p ?u ?a ?s ?n ?s0] =>
          pose proof (executeAction_begin_circuit_open i p u a s n s0) as Hexec;
          destruct (executeAction_begin p u a s n s0) as [[call|] st1]
      end; cbn [snd] in *; apply Hexec; same_providers_as st; exact H.
    + cbn [snd]. same_providers_as st. exact H.
  - unfold performAction_resume.
    pose proof (executeAction_end_circuit_open env i provider (fr_videoUrl fr)
                  (fr_actionType fr) call outcome now st H) as Hexec.
    destruct (executeAction_end _ _ _ _ _ _ _ _) as [[result|] st1];
      cbn [snd] in *; [|exact Hexec].
    destruct (res_success result).
    + cbn [snd]. same_providers_as st1. exact Hexec.
    + case_match; [|exact Hexec].
      case_match; cbn [snd]; same_providers_as st1; exact Hexec.
  - unfold fireTimer. destruct (timers st !! k) as [[due taskId]|]; [|exact H].
    destruct (now <? due); [exact H|].
    apply retryTask_begin_circuit_open. same_providers_as st. exact H.
  - unfold retryTask_resume. destruct (heap st !! task) as [t|]; [|exact H].
    pose proof (executeAction_end_circuit_open env i provider (task_videoUrl t)
                  (task_actionType t) call outcome now st H) as Hexec.
    destruct (executeAction_end _ _ _ _ _ _ _ _) as [[result|] st1];
      cbn [snd] in *; [|exact Hexec].
    destruct (res_success result); same_providers_as st1; exact Hexec.
  - eapply circuit_open_same_providers; [apply cancelTask_providers | exact H].
Qed.

Lemma run_calls_circuit_open env i cs st :
  circuit_open i st -> circuit_open i (run_calls env cs st).
Proof.
  unfold run_calls. revert st.
  induction cs as [|c cs IH]; intros st H; [exact H|].
  cbn [foldl]. apply IH, run_call_circuit_open, H.
Qed.

Lemma resetProviders_providers st :
  providers (resetProviders st)
  = (fun kp : string * Provider => (kp.1, (resetAvailability kp.2).1))
      <$> providers st.
Proof.
  unfold resetProviders. cbn [providers emit set_logged].
  set (reset := fun kp : string * Provider => (kp.1, (resetAvailability kp.2).1)).
  set (step := fun (st : Service) (ref : nat) =>
                 match providers st !! ref with
                 | Some (_, p) =>
                     let '(p, evs) := resetAvailability p in
                     emit evs (put_provider ref p st)
                 | None => st
                 end).
  assert (Hfold : forall m,
             (m <= length (providers st))%nat ->
             providers (foldl step st (seq 0 m))
             = (reset <$> take m (providers st)) ++ drop m (providers st)).
  { induction m as [|m IH]; intros Hm; [reflexivity|].
    rewrite seq_S, foldl_app. cbn [foldl Nat.add].
    specialize (IH ltac:(lia)).
    destruct (lookup_lt_is_Some_2 (providers st) m ltac:(lia)) as [[key p] Hp].
    unfold step at 1. rewrite IH.
    rewrite lookup_app_r by (rewrite length_fmap, length_take; lia).
    rewrite length_fmap, length_take, Nat.min_l, Nat.sub_diag by lia.
    rewrite lookup_drop, Nat.add_0_r, Hp.
    cbn [resetAvailability providers emit set_logged put_provider set_providers].
    rewrite IH.
    rewrite (take_S_r _ _ _ Hp), fmap_app.
    rewrite (drop_S _ _ _ Hp).
    rewrite <- app_assoc. cbn [fmap list_fmap app].
    set (pre := reset <$> take m (providers st)).
    assert (Hpre : length pre = m)
      by (subst pre; rewrite length_fmap, length_take; lia).
    rewrite alter_app_r_alt by lia.
    rewrite Hpre, Nat.sub_diag. reflexivity. }
  rewrite Hfold by lia.
  rewrite firstn_all, drop_all, app_nil_r. reflexivity.
Qed.

(** C4.  A failure that brings [errorCount] to the threshold closes
    the provider, and so does a row of failures that ends there.  Once
    [isAvailable] is false it stays false: through every method of the
    provider other than [resetAvailability()], and through every
    segment of the service other than [resetProviders()], at whatever
    times they run.  [resetAvailability()] sets [isAvailable] to true
    and [errorCount] to 0, [resetProviders()] does so for every
    provider, and [updateStats(true)] sets [errorCount] to 0. *)
Theorem circuit_breaker (env : Env) :
  (forall now p,
      tiktok_maxRetries (config env) <= errorCount p + 1 ->
      isAvailable (updateStats env false now p).1 = false)
  /\ (forall times p,
      times <> [] ->
      tiktok_maxRetries (config env) <= errorCount p + Z.of_nat (length times) ->
      errorCount (failures env times p) = errorCount p + Z.of_nat (length times)
      /\ isAvailable (failures env times p) = false)
  /\ (forall ops p,
      isAvailable p = false -> isAvailable (run_ops env ops p) = false)
  /\ (forall calls st i,
      circuit_open i st -> circuit_open i (run_calls env calls st))
  /\ (forall p,
      isAvailable (resetAvailability p).1 = true
      /\ errorCount (resetAvailability p).1 = 0)
  /\ (forall st i kp,
      providers st !! i = Some kp ->
      exists p,
        providers (resetProviders st) !! i = Some (kp.1, p)
        /\ isAvailable p = true /\ errorCount p = 0)
  /\ (forall now p, errorCount (updateStats env true now p).1 = 0).
Proof.
  destruct (provider_circuit_breaker env)
    as (Hone & Hrow & Hstay & Hreset & Hsuccess).
  split; [exact Hone|]. split; [exact Hrow|]. split; [exact Hstay|].
  split; [intros calls st i; apply run_calls_circuit_open|].
  split; [exact Hreset|]. split; [|exact Hsuccess].
  intros st i kp Hi. rewrite resetProviders_providers, list_lookup_fmap, Hi.
  eexists. split; [reflexivity|]. split; reflexivity.
Qed.

Lemma circuit_breaker_witness :
  let p := failures env_unset [1000; 2000; 3000] (newProvider "zefoy" 30000) in
  let st := set_providers [("zefoy", p)] (demo_retrying MaxAttemptsUndefined) in
  errorCount p = 3
  /\ isAvailable p = false
  /\ isAvailable
       (run_ops env_unset
          [OpUpdateStats true 4000; OpCheckAvailability 9000000;
           OpPerformBegin "https://tiktok.com/@u/video/1" "views" "s" 9000001]
          p) = false
  /\ circuit_open 0
       (run_calls env_unset
          [DoFireTimer 0 "session-2" 9000000;
           DoRetryResume "task-1" 0 0 (CallInBrowser "session-2") BrowserDone
             9000001;
           DoPerformBegin demo_url None (demo_options MaxAttemptsNull) "task-2"
             9900000]
          st)
  /\ isAvailable (resetAvailability p).1 = true.
Proof.
  intros p st.
  pose proof (circuit_breaker env_unset)
    as (_ & Hrow & Hstay & Hcalls & Hreset & _).
  destruct (Hrow [1000; 2000; 3000] (newProvider "zefoy" 30000))
    as [Hcount Hclosed]; [discriminate | vm_compute; discriminate |].
  split; [exact Hcount|]. split; [exact Hclosed|].
  split; [apply Hstay; exact Hclosed|].
  split; [|apply Hreset].
  apply Hcalls. exists ("zefoy", p). split; [reflexivity | exact Hclosed].
Defined.

(** * Further properties of the service *)

(** ** Reading the history *)

Lemma array_slice_negative {A} (n : nat) (l : list A) :
  (0 < n)%nat -> array_slice (Num (- Z.of_nat n)) l = slice_last n l.
Proof.
  intros Hn. unfold array_slice, slice_last.
  destruct (Z.ltb_spec (- Z.of_nat n) 0); [|lia].
  f_equal. lia.
Qed.

(** X1.  [getTaskHistory(limit)] returns the last [limit] tasks of the
    history (all of them when there are fewer) for a limit of 1 or
    more, and 100 of them without argument; for the limit 0 and for
    [NaN] it returns the whole history, and for a negative limit the
    history without its first [-limit] tasks. *)
Theorem getTaskHistory_limit (st : Service) :
  (forall n,
      1 <= n ->
      getTaskHistory (Some (Num n)) st
      = drop (length (taskHistory st) - Z.to_nat n) (taskHistory st)
      /\ length (getTaskHistory (Some (Num n)) st)
         = Nat.min (Z.to_nat n) (length (taskHistory st)))
  /\ getTaskHistory None st
     = drop (length (taskHistory st) - 100) (taskHistory st)
  /\ getTaskHistory (Some (Num 0)) st = taskHistory st
  /\ getTaskHistory (Some NaN) st = taskHistory st
  /\ (forall n,
         n < 0 ->
         getTaskHistory (Some (Num n)) st
         = drop (Z.to_nat (- n)) (taskHistory st)).
Proof.
  assert (Hpos : forall n,
             1 <= n ->
             getTaskHistory (Some (Num n)) st
             = drop (length (taskHistory st) - Z.to_nat n) (taskHistory st)).
  { intros n Hn.
    change (getTaskHistory (Some (Num n)) st)
      with (array_slice (Num (- n)) (taskHistory st)).
    replace (- n) with (- Z.of_nat (Z.to_nat n)) by lia.
    rewrite array_slice_negative by lia. reflexivity. }
  split; [|split; [|split; [|split]]].
  - intros n Hn. rewrite (Hpos n Hn). split; [reflexivity|].
    rewrite length_drop. lia.
  - apply (Hpos 100). lia.
  - change (getTaskHistory (Some (Num 0)) st)
      with (drop (Z.to_nat (Z.min 0 (Z.of_nat (length (taskHistory st)))))
              (taskHistory st)).
    rewrite Z.min_l by lia. reflexivity.
  - change (getTaskHistory (Some NaN) st)
      with (drop (Z.to_nat (Z.min 0 (Z.of_nat (length (taskHistory st)))))
              (taskHistory st)).
    rewrite Z.min_l by lia. reflexivity.
  - intros n Hn.
    change (getTaskHistory (Some (Num n)) st)
      with (array_slice (Num (- n)) (taskHistory st)).
    unfold array_slice.
    destruct (Z.ltb_spec (- n) 0); [lia|].
    destruct (Z.le_gt_cases (- n) (Z.of_nat (length (taskHistory st)))).
    + rewrite Z.min_l by lia. reflexivity.
    + rewrite Z.min_r by lia. rewrite Nat2Z.id.
      rewrite !drop_ge by lia. reflexivity.
Qed.

(** ** Looking a task up *)

Lemma getTaskStatus_history taskId st :
  activeTasks st !! taskId = None ->
  getTaskStatus taskId st = head (omap (has_id taskId st) (taskHistory st)).
Proof. intros H. unfold getTaskStatus. rewrite H. reflexivity. Qed.

Lemma omap_none_all {A B} (f : A -> option B) (l : list A) :
  (forall x, x ∈ l -> f x = None) -> omap f l = [].
Proof.
  induction l as [|a l IH]; intros H; [reflexivity|].
  cbn [omap list_omap]. rewrite (H a) by left.
  apply IH. intros x Hx. apply H. right. exact Hx.
Qed.

Lemma slice_last_elem {A} (n : nat) (l : list A) (x : A) :
  x ∈ slice_last n l -> x ∈ l.
Proof.
  unfold slice_last. intros H.
  rewrite <- (take_drop (length l - n) l). apply elem_of_app. right. exact H.
Qed.

Lemma slice_last_snoc_split {A} (n : nat) (l : list A) (x : A) :
  (0 < n)%nat -> slice_last n (l ++ [x]) = slice_last (n - 1) l ++ [x].
Proof.
  intros Hn. unfold slice_last. rewrite length_app. cbn [length].
  rewrite drop_app_le by lia. f_equal. f_equal. lia.
Qed.

Lemma cancelTask_active taskId now st ref t :
  activeTasks st !! taskId = Some ref ->
  heap st !! ref = Some t ->
  exists evs,
    cancelTask taskId now st
    = (true,
       emit evs
         (completeTask taskId ref
            (modify_task ref
               (fun t => set_cancelledAt (Some now) (set_status Cancelled t))
               st))).
Proof.
  intros Hactive Hheap. unfold cancelTask. rewrite Hactive.
  rewrite completeTask_heap, modify_task_lookup, Hheap. cbn [fmap option_fmap option_map].
  eexists. reflexivity.
Qed.

Lemma cancelTask_fields taskId now st ref t :
  activeTasks st !! taskId = Some ref ->
  heap st !! ref = Some t ->
  fields (cancelTask taskId now st).2
  = (alter (fun t => set_cancelledAt (Some now) (set_status Cancelled t))
       ref (heap st),
     delete taskId (activeTasks st),
     slice_last historyLimit (taskHistory st ++ [ref]),
     providers st, timers st).
Proof.
  intros Hactive Hheap.
  destruct (cancelTask_active taskId now st ref t Hactive Hheap) as [evs ->].
  unfold fields. cbn [snd emit set_logged heap activeTasks taskHistory providers timers].
  rewrite completeTask_heap, completeTask_activeTasks, completeTask_taskHistory,
    completeTask_providers, completeTask_timers.
  reflexivity.
Qed.

Lemma fields_inv st h a hi ps ts :
  fields st = (h, a, hi, ps, ts) ->
  heap st = h /\ activeTasks st = a /\ taskHistory st = hi
  /\ providers st = ps /\ timers st = ts.
Proof. unfold fields. intros [= <- <- <- <- <-]. repeat split. Qed.

(** X2.  [getTaskStatus] returns the record of the active store when
    the id is active; it returns nothing when the id is neither active
    nor that of a record of the history; a task that [performAction]
    has just created is found as created; and a task that [cancelTask]
    has cancelled is found again, in the history, as cancelled, provided
    its id is not also the id of an older record of the history. *)
Theorem getTaskStatus_lookup (taskId : string) (st : Service) :
  (forall ref,
      activeTasks st !! taskId = Some ref ->
      getTaskStatus taskId st = heap st !! ref)
  /\ (activeTasks st !! taskId = None ->
      (forall r, r ∈ taskHistory st -> has_id taskId st r = None) ->
      getTaskStatus taskId st = None)
  /\ (forall env videoUrl actionType options now k st',
      performAction_begin env videoUrl actionType options taskId now st
      = (Await k, st') ->
      exists task,
        getTaskStatus taskId st' = Some task
        /\ task_id task = taskId
        /\ task_status task = Pending
        /\ task_attempts task = 0)
  /\ (forall now ref t,
      activeTasks st !! taskId = Some ref ->
      heap st !! ref = Some t ->
      task_id t = taskId ->
      (forall r, r ∈ taskHistory st -> has_id taskId st r = None) ->
      getTaskStatus taskId (cancelTask taskId now st).2
      = Some (set_cancelledAt (Some now) (set_status Cancelled t))).
Proof.
  split; [|split; [|split]].
  - intros ref H. unfold getTaskStatus. rewrite H. reflexivity.
  - intros Hnone Hhist. rewrite getTaskStatus_history by exact Hnone.
    rewrite omap_none_all by exact Hhist. reflexivity.
  - intros env videoUrl actionType options now k st' H.
    destruct (performAction_begin_creates _ _ _ _ _ _ _ _ _ H)
      as (url & _ & _ & _ & Hactive & _ & Hheap).
    eexists. split.
    { unfold getTaskStatus. rewrite Hactive, lookup_insert_eq, Hheap.
      apply list_lookup_middle. reflexivity. }
    repeat split.
  - intros now ref t Hactive Hheap Hid Hfresh.
    set (f := fun t => set_cancelledAt (Some now) (set_status Cancelled t)).
    destruct (fields_inv _ _ _ _ _ _ (cancelTask_fields taskId now st ref t Hactive Hheap))
      as (Hh & Ha & Hi & _ & _).
    set (st' := (cancelTask taskId now st).2) in *.
    rewrite getTaskStatus_history by (rewrite Ha; apply lookup_delete_eq).
    rewrite Hi, slice_last_snoc_split by (unfold historyLimit; lia).
    rewrite omap_app.
    assert (Hnotin : ref ∉ taskHistory st).
    { intros Hin. specialize (Hfresh ref Hin). unfold has_id in Hfresh.
      rewrite Hheap, Hid, String.eqb_refl in Hfresh. discriminate. }
    rewrite omap_none_all.
    + cbn [app omap list_omap]. unfold has_id at 1.
      rewrite Hh, list_lookup_alter_eq, Hheap. cbn [fmap option_fmap option_map].
      cbn [task_id set_cancelledAt set_status].
      rewrite Hid, String.eqb_refl. reflexivity.
    + intros r Hr. apply slice_last_elem in Hr.
      rewrite <- (Hfresh r Hr). unfold has_id. rewrite Hh.
      rewrite list_lookup_alter_ne; [reflexivity|].
      intros ->. exact (Hnotin Hr).
Qed.

Lemma getTaskStatus_lookup_witness :
  let st := (demo_submitted MaxAttemptsUndefined).2 in
  (exists t, getTaskStatus "task-1" st = Some t /\ task_status t = Pending)
  /\ getTaskStatus "task-9" st = None
  /\ (exists t,
         getTaskStatus "task-1" (cancelTask "task-1" 100500 st).2 = Some t
         /\ task_status t = Cancelled).
Proof.
  intros st.
  destruct (getTaskStatus_lookup "task-1" (newService env_unset))
    as (_ & _ & Hnew & _).
  destruct (getTaskStatus_lookup "task-9" st) as (_ & Hnone & _).
  destruct (getTaskStatus_lookup "task-1" st) as (_ & _ & _ & Hcancel).
  split; [|split].
  - assert (E : exists k,
               performAction_begin env_unset demo_url (Some "views")
                 (demo_options MaxAttemptsUndefined) "task-1" 100000
                 (newService env_unset) = (Await k, st))
      by (eexists; vm_compute; reflexivity).
    destruct E as [k E].
    destruct (Hnew _ _ _ _ _ _ _ E) as (t & Ht & _ & Hs & _).
    exists t. split; [exact Ht | exact Hs].
  - apply Hnone; [vm_compute; reflexivity|].
    intros r Hr. vm_compute in Hr. inversion Hr.
  - eexists. split.
    + apply (Hcancel 100500 0%nat); try (vm_compute; reflexivity).
      intros r Hr. vm_compute in Hr. inversion Hr.
    + reflexivity.
Defined.

(** ** Shutdown *)

Lemma cancelTask_fields_active taskId now st ref :
  activeTasks st !! taskId = Some ref ->
  (cancelTask taskId now st).1 = true
  /\ fields (cancelTask taskId now st).2
     = (alter (fun t => set_cancelledAt (Some now) (set_status Cancelled t))
          ref (heap st),
        delete taskId (activeTasks st),
        slice_last historyLimit (taskHistory st ++ [ref]),
        providers st, timers st).
Proof.
  intros Hactive. unfold cancelTask. rewrite Hactive.
  case_match; (split; [reflexivity|]); unfold fields;
    cbn [snd emit set_logged heap activeTasks taskHistory providers timers];
    rewrite completeTask_heap, completeTask_activeTasks,
      completeTask_taskHistory, completeTask_providers, completeTask_timers;
    reflexivity.
Qed.

Lemma cancelTask_inactive taskId now st :
  activeTasks st !! taskId = None -> cancelTask taskId now st = (false, st).
Proof. intros H. unfold cancelTask. rewrite H. reflexivity. Qed.

(** The task records after the cancellation of the tasks at [refs]. *)
Lemma cancel_marks_heap now (refs : list nat) :
  forall (h : list Task) ref t,
    h !! ref = Some t ->
    exists t',
      foldl (fun h r =>
               alter (fun t => set_cancelledAt (Some now) (set_status Cancelled t))
                 r h) h refs !! ref = Some t'
      /\ task_id t' = task_id t
      /\ (ref ∈ refs \/ (task_status t = Cancelled /\ task_cancelledAt t = Some now) ->
          task_status t' = Cancelled /\ task_cancelledAt t' = Some now).
Proof.
  induction refs as [|r refs IH]; intros h ref t Hh.
  - exists t. split; [exact Hh|]. split; [reflexivity|].
    intros [Hin|Hdone]; [inversion Hin | exact Hdone].
  - cbn [foldl].
    set (f := fun t => set_cancelledAt (Some now) (set_status Cancelled t)).
    destruct (decide (r = ref)) as [->|Hne].
    + destruct (IH (alter f ref h) ref (f t)) as (t' & Ht' & Hid & Hst).
      { rewrite list_lookup_alter_eq, Hh. reflexivity. }
      exists t'. split; [exact Ht'|]. split; [exact Hid|].
      intros _. apply Hst. right. split; reflexivity.
    + destruct (IH (alter f r h) ref t) as (t' & Ht' & Hid & Hst).
      { rewrite list_lookup_alter_ne by exact Hne. exact Hh. }
      exists t'. split; [exact Ht'|]. split; [exact Hid|].
      intros [Hin|Hdone]; apply Hst; [|right; exact Hdone].
      left. apply elem_of_cons in Hin as [->|Hin]; [contradiction | exact Hin].
Qed.

Lemma omap_lookup_delete (a : gmap string nat) k (keys : list string) :
  k ∉ keys ->
  omap (fun k' => delete k a !! k') keys = omap (fun k' => a !! k') keys.
Proof.
  induction keys as [|k' keys IH]; intros Hk; [reflexivity|].
  cbn [omap list_omap].
  rewrite lookup_delete_ne by (intros ->; apply Hk; left).
  rewrite IH by (intros H; apply Hk; right; exact H). reflexivity.
Qed.

Lemma cancel_all_fields now keys :
  forall st,
    NoDup keys ->
    (length (taskHistory st) <= historyLimit)%nat ->
    fields (foldl (fun st taskId => (cancelTask taskId now st).2) st keys)
    = (foldl (fun h r =>
                alter (fun t => set_cancelledAt (Some now) (set_status Cancelled t))
                  r h)
         (heap st) (omap (fun k => activeTasks st !! k) keys),
       foldl (fun a k => delete k a) (activeTasks st) keys,
       slice_last historyLimit
         (taskHistory st ++ omap (fun k => activeTasks st !! k) keys),
       providers st, timers st).
Proof.
  induction keys as [|k keys IH]; intros st Hnodup Hbound.
  - cbn [foldl omap list_omap]. unfold fields. rewrite app_nil_r.
    rewrite slice_last_short by exact Hbound. reflexivity.
  - apply NoDup_cons in Hnodup as [Hk Hnodup].
    cbn [foldl omap list_omap].
    destruct (activeTasks st !! k) as [ref|] eqn:Hactive.
    + destruct (cancelTask_fields_active k now st ref Hactive) as [_ Hf].
      apply fields_inv in Hf as (Hh & Ha & Hi & Hp & Ht).
      rewrite IH; [|exact Hnodup|].
      * rewrite Hh, Ha, Hi, Hp, Ht.
        rewrite omap_lookup_delete by exact Hk.
        cbn [foldl]. rewrite slice_last_app, <- app_assoc. reflexivity.
      * rewrite Hi, slice_last_length. lia.
    + rewrite cancelTask_inactive by exact Hactive. cbn [snd].
      rewrite IH by assumption.
      rewrite (delete_id (activeTasks st) k Hactive). reflexivity.
Qed.

Lemma delete_all_lookup (keys : list string) :
  forall (a : gmap string nat) k,
    foldl (fun a k => delete k a) a keys !! k
    = if decide (k ∈ keys) then None else a !! k.
Proof.
  induction keys as [|k' keys IH]; intros a k.
  - cbn [foldl]. destruct (decide _) as [H|_]; [inversion H | reflexivity].
  - cbn [foldl]. rewrite IH.
    destruct (decide (k ∈ keys)) as [Hin|Hnotin].
    + rewrite decide_True by (right; exact Hin). reflexivity.
    + destruct (decide (k = k')) as [->|Hne].
      * rewrite decide_True by left. apply lookup_delete_eq.
      * rewrite decide_False.
        -- apply lookup_delete_ne. congruence.
        -- intros H. apply elem_of_cons in H as [?|?]; contradiction.
Qed.

Lemma fireTimer_nothing_active i sessionId now st :
  activeTasks st = ∅ ->
  (fireTimer i sessionId now st).1 = None
  /\ heap (fireTimer i sessionId now st).2 = heap st
  /\ activeTasks (fireTimer i sessionId now st).2 = activeTasks st
  /\ taskHistory (fireTimer i sessionId now st).2 = taskHistory st
  /\ providers (fireTimer i sessionId now st).2 = providers st.
Proof.
  intros Hempty. unfold fireTimer.
  destruct (timers st !! i) as [[due taskId]|]; [|repeat split].
  destruct (now <? due); [repeat split|].
  unfold retryTask_begin. cbn [activeTasks set_timers].
  rewrite Hempty, lookup_empty. repeat split. exact Hempty.
Qed.

(** X3.  [cleanup()] cancels every active task: afterwards the active
    store is empty, each task that was active is marked cancelled at
    the time of the call, the history has gained these tasks in the
    order of the keys (within its bound), and the providers and the
    pending timers are as before.  Every retry timer still pending
    then fires without effect on tasks, stores and providers. *)
Theorem cleanup_cancels_all (keys : list string) (now : Z) (st : Service) :
  keys_of_active keys st ->
  (length (taskHistory st) <= historyLimit)%nat ->
  let st' := cleanup keys now st in
  activeTasks st' = ∅
  /\ (forall k ref t,
         activeTasks st !! k = Some ref ->
         heap st !! ref = Some t ->
         exists t',
           heap st' !! ref = Some t'
           /\ task_id t' = task_id t
           /\ task_status t' = Cancelled
           /\ task_cancelledAt t' = Some now)
  /\ taskHistory st'
     = slice_last historyLimit
         (taskHistory st ++ omap (fun k => activeTasks st !! k) keys)
  /\ providers st' = providers st
  /\ timers st' = timers st
  /\ (forall i sessionId now',
         (fireTimer i sessionId now' st').1 = None
         /\ heap (fireTimer i sessionId now' st').2 = heap st'
         /\ activeTasks (fireTimer i sessionId now' st').2 = ∅
         /\ taskHistory (fireTimer i sessionId now' st').2 = taskHistory st'
         /\ providers (fireTimer i sessionId now' st').2 = providers st').
Proof.
  intros [Hnodup Hkeys] Hbound st'.
  pose proof (cancel_all_fields now keys st Hnodup Hbound) as Hf.
  apply fields_inv in Hf as (Hh & Ha & Hi & Hp & Ht).
  assert (Hempty : activeTasks st' = ∅).
  { subst st'. unfold cleanup. cbn [activeTasks emit set_logged]. rewrite Ha.
    apply map_eq. intros k. rewrite delete_all_lookup, lookup_empty.
    destruct (decide (k ∈ keys)) as [_|Hnotin]; [reflexivity|].
    destruct (activeTasks st !! k) eqn:Hk; [|reflexivity].
    exfalso. apply Hnotin, Hkeys. eauto. }
  split; [exact Hempty|]. split; [|split; [|split; [|split]]].
  - intros k ref t Hk Hheap.
    destruct (cancel_marks_heap now (omap (fun k => activeTasks st !! k) keys)
                (heap st) ref t Hheap) as (t' & Ht' & Hid & Hst).
    exists t'. subst st'. unfold cleanup. cbn [heap emit set_logged].
    rewrite Hh. split; [exact Ht'|]. split; [exact Hid|].
    apply Hst. left. apply list_elem_of_omap. exists k.
    split; [apply Hkeys; eauto | exact Hk].
  - exact Hi.
  - exact Hp.
  - exact Ht.
  - intros i sessionId now'.
    destruct (fireTimer_nothing_active i sessionId now' st' Hempty)
      as (H1 & H2 & H3 & H4 & H5).
    rewrite H3. repeat split; assumption.
Qed.

Lemma cleanup_cancels_all_witness :
  let st := demo_retrying MaxAttemptsUndefined in
  let st' := cleanup ["task-1"] 140000 st in
  activeTasks st' = ∅
  /\ taskHistory st' = [0%nat]
  /\ (task_status <$> heap st' !! 0%nat) = Some Cancelled
  /\ timers st' = [(135000, "task-1")]
  /\ (fireTimer 0 "session-2" 200000 st').1 = None.
Proof.
  intros st st'.
  destruct (cleanup_cancels_all ["task-1"] 140000 st)
    as (Hempty & Hheap & Hhist & _ & Htimers & Hfire).
  - split; [repeat constructor; intros H; inversion H|].
    intros k. split.
    + intros Hk. apply list_elem_of_singleton in Hk as ->.
      vm_compute. eauto.
    + intros [ref Hk]. apply list_elem_of_singleton.
      destruct (decide (k = "task-1")) as [->|Hne]; [reflexivity|].
      exfalso. revert Hk.
      change (activeTasks st) with (<["task-1" := 0%nat]> (∅ : gmap string nat)).
      rewrite lookup_insert_ne by congruence. rewrite lookup_empty. discriminate.
  - apply Nat.leb_le. vm_compute. reflexivity.
  - subst st'. cbv zeta in *.
    split; [exact Hempty|]. split; [rewrite Hhist; vm_compute; reflexivity|].
    split.
    + edestruct (Hheap "task-1" 0%nat) as (t' & Ht' & _ & Hs & _);
        [vm_compute; reflexivity | vm_compute; reflexivity |].
      rewrite Ht'. cbn [fmap option_fmap option_map]. rewrite Hs. reflexivity.
    + split; [rewrite Htimers; vm_compute; reflexivity|].
      apply Hfire.
Defined.

(** ** A whole call of [performAction] *)


Lemma findAvailableProvider_fields actionType now st :
  fields (findAvailableProvider actionType now st).2 = fields st.
Proof.
  destruct (findAvailableProvider_frame actionType now st)
    as (H1 & H2 & H3 & H4 & H5).
  unfold fields. rewrite H1, H2, H3, H4, H5. reflexivity.
Qed.

Lemma findAvailableProvider_same_providers actionType now st1 st2 :
  providers st1 = providers st2 ->
  (findAvailableProvider actionType now st1).1
  = (findAvailableProvider actionType now st2).1.
Proof.
  intros H. unfold findAvailableProvider. rewrite H.
  destruct (availableFrom now 0 (providers st2)) as [[avail ps] evs].
  destruct (length avail =? 0)%nat; reflexivity.
Qed.

Lemma findAvailableProvider_none actionType now st :
  (forall i kp,
      providers st !! i = Some kp -> (checkAvailability now kp.2).1.1 = false) ->
  (findAvailableProvider actionType now st).1 = None.
Proof.
  intros Hnone. unfold findAvailableProvider.
  pose proof (fun j q => availableFrom_elem now 0 (providers st) j q) as Helem.
  destruct (availableFrom now 0 (providers st)) as [[avail ps] evs].
  cbn [fst snd] in Helem.
  destruct avail as [|[i p] avail]; [reflexivity|].
  exfalso. destruct (Helem i p) as [Hin _].
  destruct Hin as (_ & (name & Hlook) & Hok); [left|].
  rewrite Nat.sub_0_r in Hlook.
  specialize (Hnone i (name, p) Hlook). simpl in Hnone. congruence.
Qed.





(** The provider starts the browser session exactly when it is
    available and the URL is valid; otherwise it answers at once. *)
Lemma zefoy_performAction_begin_cases videoUrl actionType sessionId now p :
  (zefoy_performAction_begin videoUrl actionType sessionId now p).1.2 = p
  /\ ((checkAvailability now p).1.1 = true ->
      validateVideoUrl (JsString videoUrl) = true ->
      (zefoy_performAction_begin videoUrl actionType sessionId now p).1.1
      = CallInBrowser sessionId)
  /\ ((checkAvailability now p).1.1 = false ->
      (zefoy_performAction_begin videoUrl actionType sessionId now p).1.1
      = CallResolved
          {| res_success := false; res_error := Some "Provider not available";
             res_taskId := None; res_status := None; res_attempts := None;
             res_maxAttempts := None; res_provider := Some (providerName p);
             res_actionType := Some actionType; res_videoUrl := None;
             res_sessionId := None; res_timestamp := None |}).
Proof.
  unfold zefoy_performAction_begin.
  pose proof (checkAvailability_same_provider now p) as E.
  destruct (checkAvailability now p) as [[ok q] evs]. simpl in E. subst q.
  cbn [fst snd]. destruct ok; cbn [negb].
  - split; [destruct (validateVideoUrl _); reflexivity|].
    split; [|discriminate]. intros _ ->. reflexivity.
  - split; [reflexivity|]. split; [discriminate|]. reflexivity.
Qed.




Lemma performAction_begin_valid env url actionType options taskId now st :
  validateVideoUrl (JsString url) = true ->
  includes (default "views" actionType) getAvailableActions = true ->
  exists st',
    performAction_begin env (JsString url) actionType options taskId now st
    = (Await ({| fr_taskId := taskId; fr_task := length (heap st);
                 fr_videoUrl := url;
                 fr_actionType := default "views" actionType;
                 fr_options := options |},
              (findAvailableProvider (default "views" actionType) now st).1),
       st')
    /\ fields st'
       = (heap st ++
          [created_task env taskId url (default "views" actionType) options now],
          <[taskId := length (heap st)]> (activeTasks st),
          taskHistory st, providers st, timers st).
Proof.
  intros Hurl Hact. unfold performAction_begin. rewrite Hurl, Hact.
  cbn [negb].
  match goal with
  | |- context [findAvailableProvider ?a ?n ?s] =>
      pose proof (findAvailableProvider_fields a n s) as Hf;
      pose proof (findAvailableProvider_same_providers a n s st eq_refl) as Hsame;
      destruct (findAvailableProvider a n s) as [provider st1]
  end.
  cbn [fst snd] in *. subst provider.
  eexists. split; [reflexivity|]. rewrite Hf. reflexivity.
Qed.

Lemma performAction_selected_none fr sessionId now st :
  (performAction_selected fr None sessionId now st).1
  = Return (failure "No available providers for this action"
              (Some (fr_taskId fr)) now)
  /\ fields (performAction_selected fr None sessionId now st).2
     = (alter (fun t => set_error (Some "No available providers")
                          (set_status Failed t)) (fr_task fr) (heap st),
        delete (fr_taskId fr) (activeTasks st),
        slice_last historyLimit (taskHistory st ++ [fr_task fr]),
        providers st, timers st).
Proof.
  unfold performAction_selected. cbn [fst snd]. split; [reflexivity|].
  unfold fields.
  rewrite completeTask_heap, completeTask_activeTasks, completeTask_taskHistory,
    completeTask_providers, completeTask_timers.
  reflexivity.
Qed.


Lemma zefoy_performAction_end_done env videoUrl actionType sessionId now p :
  (zefoy_performAction_end env videoUrl actionType sessionId BrowserDone now p).1
  = (session_result true None (providerName p) actionType videoUrl sessionId now,
     (updateStats env true now p).1).
Proof. reflexivity. Qed.

Lemma zefoy_performAction_end_threw
    env videoUrl actionType sessionId message now p :
  (zefoy_performAction_end env videoUrl actionType sessionId
     (BrowserThrew message) now p).1
  = (session_result false (Some message) (providerName p) actionType videoUrl
       sessionId now,
     (updateStats env false now p).1).
Proof.
  unfold zefoy_performAction_end, updateStats. cbn [negb].
  destruct (_ >=? _); reflexivity.
Qed.



Lemma alter_snoc {A} (f : A -> A) (l : list A) (x : A) :
  alter f (length l) (l ++ [x]) = l ++ [f x].
Proof.
  rewrite alter_app_r_alt by lia. rewrite Nat.sub_diag. reflexivity.
Qed.



(** X4.  A valid request that finds no provider available creates its
    task all the same and fails it at once: the caller gets the failure
    "No available providers for this action" with the id of the task,
    and the task is in the history, out of the active store, with
    status [failed], no attempt counted and no provider bound.  No
    provider and no timer is touched. *)
Theorem performAction_no_provider
    (env : Env) (url : string) (actionType : option string)
    (options : Options) (taskId sessionId : string)
    (outcome : BrowserOutcome) (t0 t1 t2 : Z) (st : Service) :
  validateVideoUrl (JsString url) = true ->
  includes (default "views" actionType) getAvailableActions = true ->
  (forall i kp,
      providers st !! i = Some kp -> (checkAvailability t0 kp.2).1.1 = false) ->
  let run := performAction_run env (JsString url) actionType options taskId
               sessionId outcome t0 t1 t2 st in
  run.1 = failure "No available providers for this action" (Some taskId) t1
  /\ (exists task,
         heap run.2 = heap st ++ [task]
         /\ task_id task = taskId
         /\ task_status task = Failed
         /\ task_error task = Some "No available providers"
         /\ task_attempts task = 0
         /\ task_provider task = None)
  /\ activeTasks run.2 = delete taskId (activeTasks st)
  /\ taskHistory run.2
     = slice_last historyLimit (taskHistory st ++ [length (heap st)])
  /\ providers run.2 = providers st
  /\ timers run.2 = timers st.
Proof.
  intros Hurl Hact Hnone run. subst run.
  destruct (performAction_begin_valid env url actionType options taskId t0 st
              Hurl Hact) as (st1 & Hbegin & Hf1).
  apply fields_inv in Hf1 as (Hh1 & Ha1 & Hi1 & Hp1 & Ht1).
  unfold performAction_run. rewrite Hbegin.
  rewrite (findAvailableProvider_none _ _ _ Hnone).
  match goal with
  | |- context [performAction_selected ?fr None ?s ?n ?s1] =>
      destruct (performAction_selected_none fr s n s1) as [Hret Hf2];
      destruct (performAction_selected fr None s n s1) as [step st2]
  end.
  cbn [fst snd fr_task fr_taskId] in *. subst step. cbn [fst snd].
  apply fields_inv in Hf2 as (Hh2 & Ha2 & Hi2 & Hp2 & Ht2).
  split; [reflexivity|]. split; [|split; [|split; [|split]]].
  - eexists. rewrite Hh2, Hh1, alter_snoc. split; [reflexivity|]. repeat split.
  - rewrite Ha2, Ha1. apply delete_insert_eq.
  - rewrite Hi2, Hi1. reflexivity.
  - rewrite Hp2, Hp1. reflexivity.
  - rewrite Ht2, Ht1. reflexivity.
Qed.

Lemma performAction_no_provider_witness :
  let st := demo_retrying MaxAttemptsUndefined in
  let run := performAction_run env_unset demo_url (Some "likes")
               (demo_options MaxAttemptsUndefined) "task-2" "session-3"
               BrowserDone 131000 131000 131000 st in
  run.1 = failure "No available providers for this action" (Some "task-2") 131000
  /\ taskHistory run.2 = [1%nat]
  /\ providers run.2 = providers st.
Proof.
  intros st run.
  destruct (performAction_no_provider env_unset
              "https://www.tiktok.com/@u/video/123" (Some "likes")
              (demo_options MaxAttemptsUndefined) "task-2" "session-3"
              BrowserDone 131000 131000 131000 st)
    as (Hret & _ & _ & Hhist & Hprov & _).
  - vm_compute. reflexivity.
  - vm_compute. reflexivity.
  - intros i kp Hi. destruct i as [|i]; [|discriminate Hi].
    vm_compute in Hi. injection Hi as <-. vm_compute. reflexivity.
  - split; [exact Hret|]. split; [|exact Hprov].
    subst run. unfold demo_url. cbv zeta in Hhist. rewrite Hhist.
    vm_compute. reflexivity.
Defined.



Lemma updateStats_failure env now p :
  let p' := (updateStats env false now p).1 in
  errorCount p' = errorCount p + 1
  /\ actionCount p' = actionCount p + 1
  /\ lastActionTime p' = now
  /\ betweenActions p' = betweenActions p
  /\ providerName p' = providerName p
  /\ isAvailable p'
     = isAvailable p && (errorCount p + 1 <? tiktok_maxRetries (config env)).
Proof.
  unfold updateStats. cbn [negb].
  cbn [errorCount set_errorCount set_actionCount set_lastActionTime
         actionCount lastActionTime].
  destruct (Z.geb_spec (errorCount p + 1) (tiktok_maxRetries (config env)));
    destruct (Z.ltb_spec (errorCount p + 1) (tiktok_maxRetries (config env)));
    try lia; cbn; repeat split; try reflexivity;
    rewrite ?andb_false_r, ?andb_true_r; reflexivity.
Qed.




(** ** A whole call of [retryTask] *)






(** ** The retry under the delay between actions *)








(** ** The provider between two calls *)

Lemma updateStats_success env now p :
  (updateStats env true now p).1
  = set_errorCount 0 (set_actionCount (actionCount p + 1)
                        (set_lastActionTime now p)).
Proof. reflexivity. Qed.

(** X9.  Once a browser session of a provider has ended at time [t],
    however it ended, every call of [performAction] on that provider
    made less than its delay between actions after [t] is refused with
    "Provider not available" and leaves the provider as it is: the
    refusal counts neither as an action nor as an error.  A call made
    when the delay has passed, on a provider still open and with a
    valid URL, starts a session. *)
Theorem provider_rate_spacing
    (env : Env) (videoUrl actionType sessionId : string)
    (outcome : BrowserOutcome) (t : Z) (p : Provider)
    (videoUrl' actionType' sessionId' : string) (t' : Z) :
  let p' := (zefoy_performAction_end env videoUrl actionType sessionId
               outcome t p).1.2 in
  let next := zefoy_performAction_begin videoUrl' actionType' sessionId' t' p' in
  next.1.2 = p'
  /\ (t' - t < betweenActions p ->
      next.1.1 = CallResolved (refusal (providerName p) actionType'))
  /\ (betweenActions p <= t' - t ->
      isAvailable p' = true ->
      validateVideoUrl (JsString videoUrl') = true ->
      next.1.1 = CallInBrowser sessionId').
Proof.
  intros p' next.
  assert (Hp' : lastActionTime p' = t /\ betweenActions p' = betweenActions p
                /\ providerName p' = providerName p).
  { subst p'. destruct outcome as [|message].
    - rewrite zefoy_performAction_end_done. cbn [snd].
      rewrite updateStats_success. repeat split.
    - rewrite zefoy_performAction_end_threw. cbn [snd].
      destruct (updateStats_failure env t p) as (_ & _ & H1 & H2 & H3 & _).
      repeat split; assumption. }
  destruct Hp' as (Hlast & Hbetween & Hname).
  destruct (zefoy_performAction_begin_cases videoUrl' actionType' sessionId' t' p')
    as (Hsame & Hstart & Hrefuse).
  fold next in Hsame, Hstart, Hrefuse.
  split; [exact Hsame|]. split.
  - intros Hearly. rewrite Hrefuse.
    + unfold refusal. rewrite Hname. reflexivity.
    + rewrite checkAvailability_value. apply andb_false_iff. right.
      apply Z.leb_gt. rewrite Hlast, Hbetween. exact Hearly.
  - intros Hlate Hopen Hurl. apply Hstart; [|exact Hurl].
    rewrite checkAvailability_value, Hopen. apply Z.leb_le.
    rewrite Hlast, Hbetween. exact Hlate.
Qed.

(** X10.  A row of failures closes a provider exactly when it brings
    the error count to the threshold, not before: after the failures at
    [times], the provider is available if and only if it was available
    and either no failure was recorded or the error count is still
    below [config.tiktok.maxRetries]. *)
Theorem breaker_opens_exactly (env : Env) (times : list Z) (p : Provider) :
  isAvailable (failures env times p)
  = isAvailable p
    && (bool_decide (times = [])
        || (errorCount p + Z.of_nat (length times)
            <? tiktok_maxRetries (config env))).
Proof.
  induction times as [|now times IH] using rev_ind.
  - cbn. rewrite andb_true_r. reflexivity.
  - rewrite failures_snoc.
    destruct (updateStats_failure env now (failures env times p))
      as (_ & _ & _ & _ & _ & Hav).
    rewrite Hav, IH, failures_errorCount, length_app. cbn [length].
    rewrite (bool_decide_eq_false_2 (times ++ [now] = []))
      by (intros H; apply app_eq_nil in H as [_ H]; discriminate).
    cbn [orb].
    destruct (isAvailable p); cbn [andb]; [|reflexivity].
    destruct (bool_decide (times = [])) eqn:Hnil; cbn [orb].
    + apply bool_decide_eq_true_1 in Hnil. subst times. cbn [length].
      replace (errorCount p + Z.of_nat (0 + 1)) with (errorCount p + Z.of_nat 0 + 1)
        by lia. reflexivity.
    + destruct (Z.ltb_spec (errorCount p + Z.of_nat (length times))
                  (tiktok_maxRetries (config env)));
        destruct (Z.ltb_spec (errorCount p + Z.of_nat (length times) + 1)
                    (tiktok_maxRetries (config env)));
        destruct (Z.ltb_spec (errorCount p + Z.of_nat (length times + 1))
                    (tiktok_maxRetries (config env)));
        try reflexivity; lia.
Qed.

(** * The browser manager *)

(** What [closeBrowser] does to the entry of its own session. *)
Lemma closeBrowser_lookup_eq sessionId outcome (browsers : gmap string BrowserData) :
  (closeBrowser sessionId outcome browsers).2 !! sessionId
  = match browsers !! sessionId with
    | None => None
    | Some bd =>
        if negb (bd_pageClosed bd) && pageCloseThrows outcome then Some bd
        else if bd_process bd && browserCloseThrows outcome then
          Some {| bd_process := bd_process bd; bd_pageClosed := true;
                  bd_createdAt := bd_createdAt bd |}
        else None
    end.
Proof.
  unfold closeBrowser. destruct (browsers !! sessionId) as [bd|] eqn:Hb.
  - destruct (negb _ && _); cbn [snd]; [exact Hb|].
    destruct (_ && _); cbn [snd];
      [apply lookup_insert_eq | apply lookup_delete_eq].
  - exact Hb.
Qed.

Lemma closeBrowser_lookup_ne sessionId outcome (browsers : gmap string BrowserData) s :
  s <> sessionId ->
  (closeBrowser sessionId outcome browsers).2 !! s = browsers !! s.
Proof.
  intros Hne. unfold closeBrowser.
  destruct (browsers !! sessionId) as [bd|]; [|reflexivity].
  destruct (negb _ && _); cbn [snd]; [reflexivity|].
  destruct (_ && _); cbn [snd].
  - apply lookup_insert_ne. congruence.
  - apply lookup_delete_ne. congruence.
Qed.

(** X11.  [closeBrowser] answers true exactly when the session is
    registered and neither closing the page (if still open) nor
    closing the browser (if still running) throws, and then the session
    is unregistered.  When it answers false the session is registered
    after the call if and only if it was before: a close that throws
    leaves the session in the registry.  No other session is touched. *)
Theorem closeBrowser_releases
    (sessionId : string) (outcome : CloseOutcome)
    (browsers : gmap string BrowserData) :
  let r := closeBrowser sessionId outcome browsers in
  (r.1 = true <->
   exists bd,
     browsers !! sessionId = Some bd
     /\ (bd_pageClosed bd = true \/ pageCloseThrows outcome = false)
     /\ (bd_process bd = false \/ browserCloseThrows outcome = false))
  /\ (r.1 = true -> r.2 = delete sessionId browsers)
  /\ (r.1 = false ->
      (is_Some (r.2 !! sessionId) <-> is_Some (browsers !! sessionId)))
  /\ (forall s, s <> sessionId -> r.2 !! s = browsers !! s).
Proof.
  intros r. subst r.
  split; [|split; [|split]].
  - unfold closeBrowser. destruct (browsers !! sessionId) as [bd|].
    + destruct (bd_pageClosed bd) eqn:Hpage, (pageCloseThrows outcome),
        (bd_process bd) eqn:Hproc, (browserCloseThrows outcome); cbn;
        (split;
         [ intros H; try discriminate H; exists bd; intuition congruence
         | intros (bd' & Heq & [H1|H1] & [H2|H2]); congruence ]).
    + cbn. split; [discriminate|]. intros (bd & H & _). discriminate.
  - unfold closeBrowser. destruct (browsers !! sessionId) as [bd|];
      [|discriminate].
    destruct (negb _ && _); [discriminate|].
    destruct (_ && _); [discriminate|]. reflexivity.
  - intros Hfalse. rewrite closeBrowser_lookup_eq.
    unfold closeBrowser in Hfalse.
    destruct (browsers !! sessionId) as [bd|]; [|reflexivity].
    destruct (negb _ && _); [reflexivity|].
    destruct (_ && _); [|discriminate].
    split; intros _; eauto.
  - intros s Hs. apply closeBrowser_lookup_ne. exact Hs.
Qed.

(** X12.  A session launched at time [t] is valid at [now] exactly
    while [now - t] is below the session timeout; a clean
    [closeBrowser] takes it out again, after which it is not valid and
    the registry is the one before the launch without that id; a launch
    that throws registers nothing; no other session is affected. *)
Theorem session_lifetime
    (sessionTimeout : Z) (sessionId : string) (t : Z)
    (browsers : gmap string BrowserData) :
  let launched := (launchBrowser sessionId Launched t browsers).2 in
  (forall now,
      isBrowserValid sessionTimeout sessionId now launched
      = (now - t <? sessionTimeout))
  /\ closeBrowser sessionId closes_cleanly launched
     = (true, delete sessionId browsers)
  /\ (forall now,
         isBrowserValid sessionTimeout sessionId now
           (closeBrowser sessionId closes_cleanly launched).2 = false)
  /\ (forall s now,
         s <> sessionId ->
         isBrowserValid sessionTimeout s now launched
         = isBrowserValid sessionTimeout s now browsers)
  /\ (forall message,
         launchBrowser sessionId (LaunchThrew message) t browsers
         = (Some message, browsers)).
Proof.
  intros launched. subst launched. cbn [launchBrowser snd].
  assert (Hclose : closeBrowser sessionId closes_cleanly
                     (<[sessionId := {| bd_process := true; bd_pageClosed := false;
                                        bd_createdAt := t |}]> browsers)
                   = (true, delete sessionId browsers)).
  { unfold closeBrowser. rewrite lookup_insert_eq. cbn.
    rewrite delete_insert_eq. reflexivity. }
  split; [|split; [|split; [|split]]].
  - intros now. unfold isBrowserValid. rewrite lookup_insert_eq. reflexivity.
  - exact Hclose.
  - intros now. rewrite Hclose. unfold isBrowserValid. cbn [snd].
    rewrite lookup_delete_eq. reflexivity.
  - intros s now Hs. unfold isBrowserValid.
    rewrite lookup_insert_ne by congruence. reflexivity.
  - reflexivity.
Qed.

Lemma count_partition {A} (f : A -> bool) (l : list A) (n a e : nat) :
  let stats :=
    foldl (fun stats (x : A) =>
             if f x then
               {| totalBrowsers := totalBrowsers stats;
                  activeSessions := activeSessions stats + 1;
                  expiredSessions := expiredSessions stats |}
             else
               {| totalBrowsers := totalBrowsers stats;
                  activeSessions := activeSessions stats;
                  expiredSessions := expiredSessions stats + 1 |})
      {| totalBrowsers := n; activeSessions := a; expiredSessions := e |} l in
  totalBrowsers stats = n
  /\ activeSessions stats = (a + length (List.filter f l))%nat
  /\ expiredSessions stats
     = (e + length (List.filter (fun x => negb (f x)) l))%nat.
Proof.
  revert a e. induction l as [|x l IH]; intros a e; cbn [foldl List.filter].
  - cbn. repeat split; lia.
  - destruct (f x); cbn [negb totalBrowsers activeSessions expiredSessions].
    + destruct (IH (a + 1)%nat e) as (H1 & H2 & H3).
      split; [exact H1|]. split; [rewrite H2; cbn [length]; lia | exact H3].
    + destruct (IH a (e + 1)%nat) as (H1 & H2 & H3).
      split; [exact H1|]. split; [exact H2 | rewrite H3; cbn [length]; lia].
Qed.

Lemma filter_partition_length {A} (f : A -> bool) (l : list A) :
  (length (List.filter f l) + length (List.filter (fun x => negb (f x)) l)
   = length l)%nat.
Proof.
  induction l as [|x l IH]; [reflexivity|].
  cbn [List.filter]. destruct (f x); cbn [negb length]; lia.
Qed.

(** X13.  In the statistics of the manager every registered session is
    counted once, as active when [isBrowserValid] holds for it and as
    expired otherwise: the two counts add up to the total, which is the
    size of the registry. *)
Theorem browser_getStats_partition
    (sessionTimeout now : Z) (browsers : gmap string BrowserData) :
  let stats := browser_getStats sessionTimeout now browsers in
  totalBrowsers stats = size browsers
  /\ (activeSessions stats + expiredSessions stats)%nat = size browsers
  /\ activeSessions stats
     = length
         (List.filter
            (fun entry : string * BrowserData =>
               isBrowserValid sessionTimeout entry.1 now browsers)
            (map_to_list browsers)).
Proof.
  intros stats. subst stats. unfold browser_getStats.
  destruct (count_partition
              (fun entry : string * BrowserData =>
                 isBrowserValid sessionTimeout entry.1 now browsers)
              (map_to_list browsers) (size browsers) 0 0) as (H1 & H2 & H3).
  cbv zeta in H1, H2, H3. cbn [Nat.add] in H2, H3.
  split; [exact H1|]. split; [|exact H2].
  rewrite H2, H3, filter_partition_length. apply length_map_to_list.
Qed.

Lemma close_each_lookup (outcomes : string -> CloseOutcome) (keys : list string) :
  NoDup keys ->
  forall (browsers : gmap string BrowserData) s,
    foldl (fun browsers sessionId =>
             (closeBrowser sessionId (outcomes sessionId) browsers).2)
      browsers keys !! s
    = if decide (s ∈ keys)
      then (closeBrowser s (outcomes s) browsers).2 !! s
      else browsers !! s.
Proof.
  induction keys as [|k keys IH]; intros Hnodup browsers s.
  - cbn [foldl]. rewrite decide_False by (intros H; inversion H). reflexivity.
  - apply NoDup_cons in Hnodup as [Hk Hnodup]. cbn [foldl].
    rewrite (IH Hnodup).
    destruct (decide (s ∈ keys)) as [Hin|Hnotin].
    + rewrite decide_True by (right; exact Hin).
      assert (Hne : s <> k) by (intros ->; contradiction).
      rewrite !closeBrowser_lookup_eq.
      rewrite (closeBrowser_lookup_ne k (outcomes k) browsers s Hne).
      reflexivity.
    + destruct (decide (s = k)) as [->|Hne].
      * rewrite decide_True by left. reflexivity.
      * rewrite decide_False
          by (intros H; apply elem_of_cons in H as [?|?]; contradiction).
        apply closeBrowser_lookup_ne. exact Hne.
Qed.

Lemma NoDup_filter_fst {A B} (f : A * B -> bool) (l : list (A * B)) :
  NoDup l.*1 -> NoDup (List.filter f l).*1.
Proof.
  induction l as [|x l IH]; intros H; [constructor|].
  cbn [fmap list_fmap] in H. apply NoDup_cons in H as [Hx H].
  cbn [List.filter]. destruct (f x); [|apply IH, H].
  cbn [fmap list_fmap]. apply NoDup_cons. split; [|apply IH, H].
  intros Hin. apply Hx.
  apply list_elem_of_fmap in Hin as (y & -> & Hy).
  apply list_elem_of_fmap. exists y. split; [reflexivity|].
  apply list_elem_of_In, filter_In in Hy as [Hy _].
  apply list_elem_of_In. exact Hy.
Qed.

Lemma expired_key sessionTimeout now (browsers : gmap string BrowserData) s :
  s ∈ (List.filter
         (fun entry : string * BrowserData => timed_out sessionTimeout now entry.2)
         (map_to_list browsers)).*1
  <-> exists bd,
        browsers !! s = Some bd /\ timed_out sessionTimeout now bd = true.
Proof.
  rewrite list_elem_of_fmap. split.
  - intros ([k bd] & -> & Hin).
    apply list_elem_of_In, filter_In in Hin as [Hin Hout].
    apply list_elem_of_In, elem_of_map_to_list in Hin.
    exists bd. split; [exact Hin | exact Hout].
  - intros (bd & Hb & Hout). exists (s, bd). split; [reflexivity|].
    apply list_elem_of_In, filter_In. split; [|exact Hout].
    apply list_elem_of_In, elem_of_map_to_list. exact Hb.
Qed.

(** X14.  [cleanupExpiredSessions] returns the number of sessions whose
    age has reached the timeout, whether or not they could be closed.
    A session that has timed out is closed as [closeBrowser] does (and
    so stays registered when closing throws); every other session is
    left as it is.  When no close throws, the registry afterwards holds
    exactly the sessions that have not timed out. *)
Theorem cleanupExpiredSessions_spec
    (sessionTimeout now : Z) (outcomes : string -> CloseOutcome)
    (browsers : gmap string BrowserData) :
  let r := cleanupExpiredSessions sessionTimeout now outcomes browsers in
  r.1 = length
          (List.filter
             (fun entry : string * BrowserData =>
                sessionTimeout <=? now - bd_createdAt entry.2)
             (map_to_list browsers))
  /\ (forall s bd,
         browsers !! s = Some bd ->
         now - bd_createdAt bd < sessionTimeout ->
         r.2 !! s = Some bd)
  /\ (forall s bd,
         browsers !! s = Some bd ->
         sessionTimeout <= now - bd_createdAt bd ->
         r.2 !! s = (closeBrowser s (outcomes s) browsers).2 !! s)
  /\ (forall s, browsers !! s = None -> r.2 !! s = None)
  /\ ((forall s, outcomes s = closes_cleanly) ->
      forall s,
        r.2 !! s
        = match browsers !! s with
          | Some bd =>
              if sessionTimeout <=? now - bd_createdAt bd then None else Some bd
          | None => None
          end).
Proof.
  intros r. subst r. unfold cleanupExpiredSessions. cbn [fst snd].
  set (keys := (List.filter
                  (fun entry : string * BrowserData =>
                     timed_out sessionTimeout now entry.2)
                  (map_to_list browsers)).*1).
  assert (Hnodup : NoDup keys).
  { subst keys. apply NoDup_filter_fst, NoDup_fst_map_to_list. }
  pose proof (close_each_lookup outcomes keys Hnodup browsers) as Hlook.
  pose proof (expired_key sessionTimeout now browsers) as Hkey. fold keys in Hkey.
  assert (Hfresh : forall s bd,
             browsers !! s = Some bd ->
             now - bd_createdAt bd < sessionTimeout -> s ∉ keys).
  { intros s bd Hb Hage Hin. apply Hkey in Hin as (bd' & Hb' & Hout).
    rewrite Hb in Hb'. injection Hb' as <-.
    unfold timed_out in Hout. apply Z.leb_le in Hout. lia. }
  assert (Hold : forall s bd,
             browsers !! s = Some bd ->
             sessionTimeout <= now - bd_createdAt bd -> s ∈ keys).
  { intros s bd Hb Hage. apply Hkey. exists bd. split; [exact Hb|].
    apply Z.leb_le. exact Hage. }
  split; [|split; [|split; [|split]]].
  - subst keys. rewrite length_fmap. reflexivity.
  - intros s bd Hb Hage. rewrite Hlook.
    rewrite decide_False by (eapply Hfresh; eassumption). exact Hb.
  - intros s bd Hb Hage. rewrite Hlook.
    rewrite decide_True by (eapply Hold; eassumption). reflexivity.
  - intros s Hb. rewrite Hlook.
    rewrite decide_False
      by (intros Hin; apply Hkey in Hin as (bd & Hb' & _); congruence).
    exact Hb.
  - intros Hclean s. rewrite Hlook.
    destruct (browsers !! s) as [bd|] eqn:Hb.
    + destruct (Z.leb_spec sessionTimeout (now - bd_createdAt bd)) as [Hage|Hage].
      * rewrite decide_True by (eapply Hold; eassumption).
        rewrite closeBrowser_lookup_eq, Hb, Hclean. cbn.
        rewrite !andb_false_r. reflexivity.
      * rewrite decide_False by (eapply Hfresh; eassumption). reflexivity.
    + rewrite decide_False
        by (intros Hin; apply Hkey in Hin as (bd & Hb' & _); congruence).
      reflexivity.
Qed.

(** * The cookie file *)

(** X15.  Cookies saved for a session are the cookies loaded for it:
    after a [saveCookies] that succeeds, [loadCookies] for the same
    session hands exactly the saved cookies to the page and answers
    true, unless the saved list is empty, in which case it answers
    false and sets nothing; the entries of the other sessions load as
    before.  A file that is not readable as JSON makes both operations
    answer false and is left as it is; a missing file or a missing
    entry makes [loadCookies] answer false. *)
Theorem cookies_round_trip
    {Cookie : Type} (sessionId : string) (cookies : list Cookie)
    (file : CookieFile Cookie) :
  (file <> BadJson ->
   let saved := saveCookies sessionId (Some cookies) None file in
   saved.1 = true
   /\ loadCookies sessionId false saved.2
      = (if (length cookies =? 0)%nat then (false, None)
         else (true, Some cookies))
   /\ (forall s throws,
          s <> sessionId ->
          loadCookies s throws saved.2 = loadCookies s throws file))
  /\ (forall pageCookies writeThrows,
         saveCookies sessionId pageCookies writeThrows (@BadJson Cookie)
         = (false, BadJson))
  /\ (forall throws, loadCookies sessionId throws (@BadJson Cookie) = (false, None))
  /\ (forall throws, loadCookies sessionId throws (@NoFile Cookie) = (false, None))
  /\ (forall throws all,
         all !! sessionId = None ->
         loadCookies sessionId throws (Json all) = (false, @None (list Cookie))).
Proof.
  split; [|split; [|split; [|split]]].
  - intros Hfile saved. subst saved.
    destruct file as [| |all]; [| congruence |]; cbn [saveCookies fst snd].
    + split; [reflexivity|]. split.
      * unfold loadCookies. rewrite lookup_insert_eq.
        destruct (length cookies =? 0)%nat; reflexivity.
      * intros s throws Hs. unfold loadCookies.
        rewrite lookup_insert_ne by congruence. rewrite lookup_empty.
        reflexivity.
    + split; [reflexivity|]. split.
      * unfold loadCookies. rewrite lookup_insert_eq.
        destruct (length cookies =? 0)%nat; reflexivity.
      * intros s throws Hs. unfold loadCookies.
        rewrite lookup_insert_ne by congruence. reflexivity.
  - intros [cs|] writeThrows; reflexivity.
  - reflexivity.
  - reflexivity.
  - intros throws all Hnone. unfold loadCookies. rewrite Hnone. reflexivity.
Qed.

Lemma cookies_round_trip_witness :
  let file := Json (<["old-session" := ["sid=1"]]> ∅) in
  let saved := saveCookies "new-session" (Some ["cf=2"; "zefoy=3"]) None file in
  loadCookies "new-session" false saved.2 = (true, Some ["cf=2"; "zefoy=3"])
  /\ loadCookies "old-session" false saved.2 = (true, Some ["sid=1"])
  /\ loadCookies "new-session" false file = (false, None).
Proof.
  intros file saved.
  destruct (cookies_round_trip "new-session" ["cf=2"; "zefoy=3"] file)
    as (Hsave & _ & _ & _ & Hmissing).
  destruct Hsave as (_ & Hload & Hothers); [discriminate|].
  split; [exact Hload|]. split.
  - subst saved. rewrite Hothers by discriminate. vm_compute. reflexivity.
  - apply Hmissing. vm_compute. reflexivity.
Defined.

(** * The counters of the service *)

Lemma status_counts (h : list Task) (l : list nat) :
  let count s :=
    length (List.filter
              (fun ref =>
                 match h !! ref with
                 | Some t => TaskStatus_eqb (task_status t) s
                 | None => false
                 end) l) in
  (count Completed + count Failed + count Cancelled <= length l)%nat
  /\ ((forall ref,
          ref ∈ l ->
          exists t,
            h !! ref = Some t
            /\ (task_status t = Completed \/ task_status t = Failed
                \/ task_status t = Cancelled)) ->
      (count Completed + count Failed + count Cancelled = length l)%nat).
Proof.
  induction l as [|ref l [IHle IHeq]]; cbn zeta in *.
  - split; [reflexivity|]. intros _. reflexivity.
  - cbn [List.filter]. split.
    + destruct (h !! ref) as [t|]; [destruct (task_status t)|];
        cbn [TaskStatus_eqb length]; lia.
    + intros Hall.
      assert (Hrest : (length
                         (List.filter
                            (fun ref => match h !! ref with
                                        | Some t => TaskStatus_eqb (task_status t) Completed
                                        | None => false
                                        end) l)
                       + length
                           (List.filter
                              (fun ref => match h !! ref with
                                          | Some t => TaskStatus_eqb (task_status t) Failed
                                          | None => false
                                          end) l)
                       + length
                           (List.filter
                              (fun ref => match h !! ref with
                                          | Some t => TaskStatus_eqb (task_status t) Cancelled
                                          | None => false
                                          end) l)
                       = length l)%nat).
      { apply IHeq. intros r Hr. apply Hall. right. exact Hr. }
      destruct (Hall ref) as (t & Ht & Hterminal); [left|].
      rewrite Ht.
      destruct Hterminal as [->|[->| ->]]; cbn [TaskStatus_eqb length]; lia.
Qed.

(** X16.  In the task counters of [getStats()] the total is the number
    of active tasks plus the length of the history; the counts of
    completed, failed and cancelled tasks never add up to more than the
    length of the history, and they add up to exactly that length when
    every record of the history has one of these three statuses. *)
Theorem getStats_counts (st : Service) :
  let c := getStats_tasks st in
  count_active c = size (activeTasks st)
  /\ count_total c = (length (taskHistory st) + count_active c)%nat
  /\ (count_completed c + count_failed c + count_cancelled c
      <= length (taskHistory st))%nat
  /\ ((forall ref,
          ref ∈ taskHistory st ->
          exists t,
            heap st !! ref = Some t
            /\ (task_status t = Completed \/ task_status t = Failed
                \/ task_status t = Cancelled)) ->
      (count_completed c + count_failed c + count_cancelled c
       = length (taskHistory st))%nat).
Proof.
  intros c. subst c.
  destruct (status_counts (heap st) (taskHistory st)) as [Hle Heq].
  split; [reflexivity|]. split; [reflexivity|].
  split; [exact Hle | exact Heq].
Qed.

(** X17.  [closeAllBrowsers] with closes that do not throw leaves no
    session registered; in general a session is registered afterwards
    exactly as its own [closeBrowser] leaves it. *)
Theorem closeAllBrowsers_spec
    (outcomes : string -> CloseOutcome) (browsers : gmap string BrowserData) :
  (forall s,
      closeAllBrowsers outcomes browsers !! s
      = (closeBrowser s (outcomes s) browsers).2 !! s)
  /\ ((forall s, outcomes s = closes_cleanly) ->
      closeAllBrowsers outcomes browsers = ∅).
Proof.
  assert (Hlook : forall s,
             closeAllBrowsers outcomes browsers !! s
             = (closeBrowser s (outcomes s) browsers).2 !! s).
  { intros s. unfold closeAllBrowsers.
    rewrite close_each_lookup by apply NoDup_fst_map_to_list.
    destruct (decide (s ∈ (map_to_list browsers).*1)) as [_|Hnotin];
      [reflexivity|].
    rewrite closeBrowser_lookup_eq.
    destruct (browsers !! s) as [bd|] eqn:Hb; [|reflexivity].
    exfalso. apply Hnotin. apply list_elem_of_fmap. exists (s, bd).
    split; [reflexivity|]. apply elem_of_map_to_list. exact Hb. }
  split; [exact Hlook|].
  intros Hclean. apply map_eq. intros s.
  rewrite Hlook, closeBrowser_lookup_eq, lookup_empty, Hclean.
  destruct (browsers !! s) as [bd|]; [|reflexivity].
  cbn. rewrite !andb_false_r. reflexivity.
Qed.
